(** * pubsubmsgrestforwarder: the message delivery loop of [main.go]

    A shallow embedding of [transformMessage], [sendPOST] and
    [consumeMessages], together with models of the Go standard-library
    functions they call ([encoding/base64], [time.Time.Format],
    [encoding/json], [fmt], [net/http], [log]) and of the Pub/Sub
    [Subscription.Receive] callback protocol.

    Conventions:
    - a Go [string] is a Rocq [string] (a sequence of 8-bit characters);
    - a Go [[]byte] is a [list byte];
    - a Go [map[string]string] is an [option (gmap string string)], where
      [None] is the nil map;
    - a Go [error] is an [option error], where [None] is nil. *)

From Stdlib Require Import ZArith NArith Lia List Ascii String.
From Stdlib.Strings Require Import Byte.
From stdpp Require Import base gmap strings list sorting.

Local Open Scope string_scope.
Local Open Scope list_scope.

(** ** encoding/base64: the standard encoding *)

Module base64.

(** The alphabet of [base64.StdEncoding]. *)
Definition encodeStd : string :=
  "ABCDEFGHIJKLMNOPQRSTUVWXYZabcdefghijklmnopqrstuvwxyz0123456789+/".

(** [StdPadding]. *)
Definition padChar : ascii := "="%char.

(** [enc.encode[i]]: only ever indexed with a six-bit value. *)
Definition encode (i : N) : ascii :=
  match String.get (N.to_nat i) encodeStd with
  | Some c => c
  | None => padChar
  end.

Fixpoint index_of (c : ascii) (s : string) (i : N) : N :=
  match s with
  | EmptyString => 255
  | String d s' => if Ascii.eqb c d then i else index_of c s' (N.succ i)
  end.

(** [enc.decodeMap[c]]: the index of [c] in the alphabet, or [0xff]. *)
Definition decodeMap (c : ascii) : N := index_of c encodeStd 0.

(** Go's [byte(x)] conversion of an unsigned integer: the low eight bits. *)
Definition byte_of_N (x : N) : byte :=
  match Byte.of_N (N.land x 255) with
  | Some b => b
  | None => x00
  end.

Definition uint (b : byte) : N := Byte.to_N b.

(** [Encoding.EncodeToString] for [StdEncoding]: three source bytes become
    four characters; a remainder of one or two bytes is padded with [=]. *)
Fixpoint EncodeToString (src : list byte) : string :=
  match src with
  | [] => ""
  | [b0] =>
      let val := N.shiftl (uint b0) 16 in
      String (encode (N.land (N.shiftr val 18) 63))
        (String (encode (N.land (N.shiftr val 12) 63))
           (String padChar (String padChar "")))
  | [b0; b1] =>
      let val := N.lor (N.shiftl (uint b0) 16) (N.shiftl (uint b1) 8) in
      String (encode (N.land (N.shiftr val 18) 63))
        (String (encode (N.land (N.shiftr val 12) 63))
           (String (encode (N.land (N.shiftr val 6) 63))
              (String padChar "")))
  | b0 :: b1 :: b2 :: rest =>
      let val := N.lor (N.lor (N.shiftl (uint b0) 16) (N.shiftl (uint b1) 8))
                   (uint b2) in
      String (encode (N.land (N.shiftr val 18) 63))
        (String (encode (N.land (N.shiftr val 12) 63))
           (String (encode (N.land (N.shiftr val 6) 63))
              (String (encode (N.land val 63)) (EncodeToString rest))))
  end.

Definition is_newline (c : ascii) : bool :=
  Ascii.eqb c "010"%char || Ascii.eqb c "013"%char.

(** The loops [for si < len(src) && (src[si] == '\n' || src[si] == '\r')]. *)
Fixpoint skip_newlines (s : string) : string :=
  match s with
  | String c s' => if is_newline c then skip_newlines s' else s
  | EmptyString => s
  end.

(** The 24-bit value assembled from four six-bit digits. *)
Definition quantum_val (d0 d1 d2 d3 : N) : N :=
  N.lor (N.lor (N.lor (N.shiftl d0 18) (N.shiftl d1 12)) (N.shiftl d2 6)) d3.

(** The bytes written for a quantum of [dlen] digits ([dbuf] holds the
    digits read so far, missing ones are zero). *)
Definition quantum_bytes (dbuf : list N) : list byte :=
  match dbuf with
  | [d0; d1] =>
      let val := quantum_val d0 d1 0 0 in [byte_of_N (N.shiftr val 16)]
  | [d0; d1; d2] =>
      let val := quantum_val d0 d1 d2 0 in
      [byte_of_N (N.shiftr val 16); byte_of_N (N.shiftr val 8)]
  | [d0; d1; d2; d3] =>
      let val := quantum_val d0 d1 d2 d3 in
      [byte_of_N (N.shiftr val 16); byte_of_N (N.shiftr val 8); byte_of_N val]
  | _ => []
  end.

(** [Encoding.DecodeString] for [StdEncoding] (padded, not strict): the
    loop over [decodeQuantum], with [dbuf] the digits of the quantum being
    read.  [None] stands for a [CorruptInputError].  Line breaks are
    skipped; a pad character may only close a quantum of two or three
    digits and may only be followed by line breaks. *)
Fixpoint decode (src : string) (dbuf : list N) : option (list byte) :=
  match src with
  | EmptyString =>
      match dbuf with
      | [] => Some []
      | _ => None
      end
  | String c rest =>
      let out := decodeMap c in
      if negb (N.eqb out 255) then
        let dbuf' := (dbuf ++ [out])%list in
        if Nat.eqb (length dbuf') 4
        then option_map (app (quantum_bytes dbuf')) (decode rest [])
        else decode rest dbuf'
      else if is_newline c then decode rest dbuf
      else if negb (Ascii.eqb c padChar) then None
      else
        match dbuf with
        | [_; _] =>
            match skip_newlines rest with
            | String c' rest' =>
                if Ascii.eqb c' padChar then
                  match skip_newlines rest' with
                  | EmptyString => Some (quantum_bytes dbuf)
                  | _ => None
                  end
                else None
            | EmptyString => None
            end
        | [_; _; _] =>
            match skip_newlines rest with
            | EmptyString => Some (quantum_bytes dbuf)
            | _ => None
            end
        | _ => None
        end
  end.

Definition DecodeString (s : string) : option (list byte) := decode s [].

End base64.

(** ** strconv and fmt: decimal numbers *)

Definition digit (d : Z) : ascii := ascii_of_N (48 + Z.to_N d).

(** The decimal digits of [u], most significant first ([u >= 0]). *)
Fixpoint utod (fuel : nat) (u : Z) (acc : string) : string :=
  match fuel with
  | O => acc
  | S fuel' =>
      let acc' := String (digit (u mod 10)) acc in
      if u <? 10 then acc' else utod fuel' (u / 10) acc'
  end%Z.

Definition itoa (u : Z) : string := utod (S (Z.to_nat (Z.log2 u))) u "".

Fixpoint zeros (n : nat) : string :=
  match n with
  | O => ""
  | S n' => String "0"%char (zeros n')
  end.

(** ** time: instants and [Time.Format] with the [RFC3339] layout *)

Module time.

(** A [time.Time]: seconds since the Unix epoch, the nanosecond within
    that second, and the offset east of UTC (in seconds) that the
    instant's location has at that instant. *)
Record Time := {
  sec : Z;
  nsec : Z;
  offset : Z
}.

Local Open Scope Z_scope.

(** [appendInt(b, x, width)]: [x] in decimal, zero-padded to [width]
    digits, with the two short cuts for two- and four-digit fields. *)
Definition appendInt (x : Z) (width : Z) : string :=
  let u := Z.abs x in
  (if x <? 0 then "-" else "") +:+
  (if (width =? 2) && (u <? 100) then
     String (digit (u / 10)) (String (digit (u mod 10)) "")
   else if (width =? 4) && (u <? 10000) then
     String (digit (u / 1000))
       (String (digit (u / 100 mod 10))
          (String (digit (u / 10 mod 10)) (String (digit (u mod 10)) "")))
   else
     let ds := itoa u in
     zeros (Z.to_nat (width - Z.of_nat (String.length ds))) +:+ ds).

(** The civil date of day number [days] (days since 1970-01-01) in the
    proleptic Gregorian calendar: (year, month, day). *)
Definition civil (days : Z) : Z * Z * Z :=
  let z := days + 719468 in
  let era := z / 146097 in
  let doe := z mod 146097 in
  let yoe := (doe - doe / 1460 + doe / 36524 - doe / 146096) / 365 in
  let doy := doe - (365 * yoe + yoe / 4 - yoe / 100) in
  let mp := (5 * doy + 2) / 153 in
  let d := doy - (153 * mp + 2) / 5 + 1 in
  let m := if mp <? 10 then mp + 3 else mp - 9 in
  let y := yoe + era * 400 in
  (if m <=? 2 then y + 1 else y, m, d).

Definition Year (t : Time) : Z := (civil ((sec t + offset t) / 86400)).1.1.
Definition Month (t : Time) : Z := (civil ((sec t + offset t) / 86400)).1.2.
Definition Day (t : Time) : Z := (civil ((sec t + offset t) / 86400)).2.
Definition Hour (t : Time) : Z := (sec t + offset t) mod 86400 / 3600.
Definition Minute (t : Time) : Z := (sec t + offset t) mod 3600 / 60.
Definition Second (t : Time) : Z := (sec t + offset t) mod 60.

(** The pieces a layout string is cut into by [nextStdChunk]. *)
Inductive chunk :=
  | stdLongYear          (* 2006 *)
  | stdZeroMonth         (* 01 *)
  | stdZeroDay           (* 02 *)
  | stdHour              (* 15 *)
  | stdZeroMinute        (* 04 *)
  | stdZeroSecond        (* 05 *)
  | stdISO8601ColonTZ    (* Z07:00 *)
  | literal (s : string).

(** The layout [time.RFC3339], "2006-01-02T15:04:05Z07:00", in chunks. *)
Definition RFC3339 : list chunk :=
  [stdLongYear; literal "-"; stdZeroMonth; literal "-"; stdZeroDay;
   literal "T"; stdHour; literal ":"; stdZeroMinute; literal ":";
   stdZeroSecond; stdISO8601ColonTZ].

(** The zone field [Z07:00]: [Z] for UTC, otherwise sign, hours and
    minutes of the offset (Go's [/] and [%] truncate toward zero). *)
Definition formatZone (off : Z) : string :=
  if off =? 0 then "Z"
  else
    let zone := Z.quot off 60 in
    (if zone <? 0 then "-" else "+") +:+
    appendInt (Z.quot (Z.abs zone) 60) 2 +:+ ":" +:+
    appendInt (Z.rem (Z.abs zone) 60) 2.

Definition formatChunk (t : Time) (c : chunk) : string :=
  match c with
  | stdLongYear => appendInt (Year t) 4
  | stdZeroMonth => appendInt (Month t) 2
  | stdZeroDay => appendInt (Day t) 2
  | stdHour => appendInt (Hour t) 2
  | stdZeroMinute => appendInt (Minute t) 2
  | stdZeroSecond => appendInt (Second t) 2
  | stdISO8601ColonTZ => formatZone (offset t)
  | literal s => s
  end.

(** [t.Format(layout)]. *)
Definition Format (t : Time) (layout : list chunk) : string :=
  fold_right (fun c acc => formatChunk t c +:+ acc) "" layout.

End time.

(** ** errors and fmt.Errorf *)

(** Go error values: the sentinel [context.Canceled], an opaque error
    with its message, and the error [fmt.Errorf] builds for a format
    with [%w], which keeps the wrapped error. *)
Inductive error :=
  | context_Canceled
  | errorString (s : string)
  | wrapError (msg : string) (err : error).

(** The [Error()] method. *)
Definition Error (e : error) : string :=
  match e with
  | context_Canceled => "context canceled"
  | errorString s => s
  | wrapError msg _ => msg
  end.

(** The [Unwrap()] method. *)
Definition Unwrap (e : error) : option error :=
  match e with
  | wrapError _ err => Some err
  | _ => None
  end.

(** [fmt.Errorf(prefix + "%w", err)]. *)
Definition Errorf_w (prefix : string) (err : error) : error :=
  wrapError (prefix +:+ Error err) err.

(** [fmt.Errorf(prefix + "%s", s)]: no [%w], nothing is wrapped. *)
Definition Errorf_s (prefix : string) (s : string) : error :=
  errorString (prefix +:+ s).

(** [err == context.Canceled]: comparison with the sentinel itself; an
    error that wraps it, or another error with the same text, differs. *)
Definition is_Canceled (e : error) : bool :=
  match e with
  | context_Canceled => true
  | _ => false
  end.

(** ** The program's data types *)

(** [Config] holds the configuration parsed from command-line arguments. *)
Record Config := {
  Project : string;
  Subscription : string;
  URL : string
}.

Module pubsub.

(** [pubsub.Message], the fields the program reads.  A nil [Attributes]
    map is [None]. *)
Record Message := {
  ID : string;
  Data : list byte;
  Attributes : option (gmap string string);
  PublishTime : time.Time;
  OrderingKey : string
}.

End pubsub.

(** [PubSubMessage] represents the transformed Pub/Sub message structure. *)
Module PubSubMessage.

Record Message_t := {
  Attributes : option (gmap string string);   (* json:"attributes" *)
  Data : string;                              (* json:"data" *)
  MessageID : string;                         (* json:"messageId" *)
  OrderingKey : string;                       (* json:"orderingKey,omitempty" *)
  PublishTime : string                        (* json:"publishTime" *)
}.

Record t := {
  Message : Message_t;                        (* json:"message" *)
  Subscription : string                       (* json:"subscription" *)
}.

End PubSubMessage.

(** ** encoding/json *)

Module json.

(** The JSON documents [Marshal] writes for the program's types. *)
#[local] Unset Elimination Schemes.
Inductive value :=
  | JNull
  | JString (s : string)
  | JObject (members : list (string * value)).
#[local] Set Elimination Schemes.

Definition dquote : ascii := "034"%char.
Definition backslash : ascii := "092"%char.

Definition hex (d : N) : ascii :=
  match String.get (N.to_nat d) "0123456789abcdef" with
  | Some c => c
  | None => "0"%char
  end.

(** [htmlSafeSet]: the ASCII characters written as they are. *)
Definition htmlSafe (b : N) : bool :=
  (32 <=? b)%N && negb (b =? 34)%N && negb (b =? 92)%N
  && negb (b =? 60)%N && negb (b =? 62)%N && negb (b =? 38)%N.

(** The escape written for an ASCII character outside [htmlSafeSet]. *)
Definition escape (c : ascii) : string :=
  let b := N_of_ascii c in
  if (b =? 34)%N || (b =? 92)%N then String backslash (String c "")
  else if (b =? 8)%N then String backslash "b"
  else if (b =? 12)%N then String backslash "f"
  else if (b =? 10)%N then String backslash "n"
  else if (b =? 13)%N then String backslash "r"
  else if (b =? 9)%N then String backslash "t"
  else String backslash
         ("u00" +:+ String (hex (N.shiftr b 4)) (String (hex (N.land b 15)) "")).

Definition continuation (s : string) (n : nat) (lo hi : N) : bool :=
  match String.get n s with
  | Some c => (lo <=? N_of_ascii c)%N && (N_of_ascii c <=? hi)%N
  | None => false
  end.

(** The size of the UTF-8 sequence at the head of [s], whose first byte
    [b0] is not ASCII, as [utf8.DecodeRuneInString] finds it; 1 also
    stands for an invalid or truncated sequence. *)
Definition rune_size (b0 : N) (s : string) : nat :=
  if ((194 <=? b0) && (b0 <=? 223))%N then
    if continuation s 1 128 191 then 2 else 1
  else if ((224 <=? b0) && (b0 <=? 239))%N then
    let lo := if (b0 =? 224)%N then 160%N else 128%N in
    let hi := if (b0 =? 237)%N then 159%N else 191%N in
    if continuation s 1 lo hi && continuation s 2 128 191 then 3 else 1
  else if ((240 <=? b0) && (b0 <=? 244))%N then
    let lo := if (b0 =? 240)%N then 144%N else 128%N in
    let hi := if (b0 =? 244)%N then 143%N else 191%N in
    if continuation s 1 lo hi && continuation s 2 128 191
       && continuation s 3 128 191 then 4 else 1
  else 1.

(** U+2028 and U+2029 ([E2 80 A8] and [E2 80 A9]). *)
Definition line_separator (s : string) : option ascii :=
  match s with
  | String c0 (String c1 (String c2 _)) =>
      if ((N_of_ascii c0 =? 226) && (N_of_ascii c1 =? 128))%N then
        if (N_of_ascii c2 =? 168)%N then Some "8"%char
        else if (N_of_ascii c2 =? 169)%N then Some "9"%char
        else None
      else None
  | _ => None
  end.

(** The body of [appendString] with [escapeHTML]: [skip] counts the
    bytes of the current rune that are still to be passed over, [copy]
    tells whether they are copied or were replaced by an escape. *)
Fixpoint appendString_go (s : string) (skip : nat) (copy : bool) : string :=
  match s with
  | EmptyString => String dquote ""
  | String c rest =>
      match skip with
      | S skip' =>
          if copy then String c (appendString_go rest skip' copy)
          else appendString_go rest skip' copy
      | O =>
          let b := N_of_ascii c in
          if (b <? 128)%N then
            if htmlSafe b then String c (appendString_go rest 0 true)
            else escape c +:+ appendString_go rest 0 true
          else
            match line_separator s with
            | Some d =>
                String backslash ("u202" +:+ String d "")
                +:+ appendString_go rest 2 false
            | None =>
                match rune_size b s with
                | S (S n) => String c (appendString_go rest (S n) true)
                | _ =>
                    String backslash "ufffd" +:+ appendString_go rest 0 true
                end
            end
      end
  end.

(** [appendString]: a Go string as a JSON string literal. *)
Definition appendString (s : string) : string :=
  String dquote (appendString_go s 0 true).

(** The text of a document, members in the order given, without
    insignificant white space. *)
Fixpoint render (v : value) : string :=
  match v with
  | JNull => "null"
  | JString s => appendString s
  | JObject members =>
      let fix go (ms : list (string * value)) (first : bool) : string :=
        match ms with
        | [] => ""
        | (k, x) :: ms' =>
            (if first then "" else ",") +:+ appendString k +:+ ":"
            +:+ render x +:+ go ms' false
        end in
      "{" +:+ go members true +:+ "}"
  end.

(** The member of an object with a given name. *)
Definition member (name : string) (v : value) : option value :=
  match v with
  | JObject members => snd <$> List.find (fun kv => String.eqb kv.1 name) members
  | _ => None
  end.

(** A [map[string]string]: [null] for the nil map, otherwise an object
    with the keys in increasing byte order. *)
Definition of_map (m : option (gmap string string)) : value :=
  match m with
  | None => JNull
  | Some m =>
      JObject ((fun kv => (kv.1, JString kv.2)) <$>
               merge_sort (fun a b : string * string => String.le a.1 b.1)
                 (map_to_list m))
  end.

(** The Go values the program hands to [Marshal]: strings, maps from
    strings to strings, and structs, whose fields come in declaration
    order with the name and the [omitempty] option of their [json] tag. *)
#[local] Unset Elimination Schemes.
Inductive govalue :=
  | VString (s : string)
  | VMap (m : option (gmap string string))
  | VStruct (fields : list (string * bool * govalue)).
#[local] Set Elimination Schemes.

(** [isEmptyValue]: the values [omitempty] leaves out (a string or a map
    of length zero; a struct never is). *)
Definition isEmptyValue (v : govalue) : bool :=
  match v with
  | VString s => Nat.eqb (String.length s) 0
  | VMap None => true
  | VMap (Some m) => Nat.eqb (size m) 0
  | VStruct _ => false
  end.

(** The document the encoder writes for a value. *)
Fixpoint encode (v : govalue) : value :=
  match v with
  | VString s => JString s
  | VMap m => of_map m
  | VStruct fields =>
      let fix go (fs : list (string * bool * govalue))
        : list (string * value) :=
        match fs with
        | [] => []
        | (name, omitempty, x) :: fs' =>
            if omitempty && isEmptyValue x then go fs'
            else (name, encode x) :: go fs'
        end in
      JObject (go fields)
  end.

(** The type [PubSubMessage] as the encoder sees it: its fields with
    their tags. *)
Definition reflect (p : PubSubMessage.t) : govalue :=
  let m := PubSubMessage.Message p in
  VStruct
    [("message", false,
      VStruct
        [("attributes", false, VMap (PubSubMessage.Attributes m));
         ("data", false, VString (PubSubMessage.Data m));
         ("messageId", false, VString (PubSubMessage.MessageID m));
         ("orderingKey", true, VString (PubSubMessage.OrderingKey m));
         ("publishTime", false, VString (PubSubMessage.PublishTime m))]);
     ("subscription", false, VString (PubSubMessage.Subscription p))].

(** The document for a [PubSubMessage]. *)
Definition of_PubSubMessage (p : PubSubMessage.t) : value :=
  encode (reflect p).

(** [json.Marshal(payload)] for a [*PubSubMessage]: none of the field
    types has a failing encoder. *)
Definition Marshal (p : PubSubMessage.t) : string + error :=
  inl (render (of_PubSubMessage p)).

End json.

(** ** net/http *)

Module http.

Record Request := {
  Method : string;
  URL : string;
  Header : list (string * string);
  Body : string
}.

(** The fields of [http.Response] the program reads: [Status] is the
    status line text, such as "200 OK". *)
Record Response := {
  Status : string;
  StatusCode : Z
}.

(** [req.Header.Set(key, value)]. *)
Definition Header_Set (req : Request) (key val : string) : Request :=
  {| Method := Method req; URL := URL req;
     Header := (key, val) ::
               filter (fun kv => kv.1 ≠ key) (Header req);
     Body := Body req |}.

End http.

(** ** The observable world: a state monad *)

(** What the program does to the outside, in order. *)
Inductive event :=
  | EvLog (line : string)          (* a line handed to the standard logger *)
  | EvPOST (req : http.Request)    (* a request handed to [client.Do] *)
  | EvAck (h : nat)                (* [Ack] on the message of delivery [h] *)
  | EvNack (h : nat).              (* [Nack] on the message of delivery [h] *)

Record World := {
  trace : list event;
  roundtrips : nat                 (* requests handed to [client.Do] so far *)
}.

Definition M (A : Type) : Type := World -> A * World.

Global Instance M_ret : MRet M := fun A (a : A) w => (a, w).

Global Instance M_bind : MBind M :=
  fun A B (k : A -> M B) (m : M A) w => let (a, w') := m w in k a w'.

Definition emit (e : event) : M unit :=
  fun w => (tt, {| trace := trace w ++ [e]; roundtrips := roundtrips w |}).

(** [log.Println(s)] and [log.Printf(...)], given the formatted text. *)
Definition log_Print (line : string) : M unit := emit (EvLog line).

(** ** The program *)

(** [transformMessage] converts a Pub/Sub message into the desired JSON
    structure. *)
Definition transformMessage (msg : pubsub.Message) (cfg : Config)
  : PubSubMessage.t :=
  {| PubSubMessage.Message :=
       {| PubSubMessage.Attributes := pubsub.Attributes msg;
          PubSubMessage.Data := base64.EncodeToString (pubsub.Data msg);
          PubSubMessage.MessageID := pubsub.ID msg;
          PubSubMessage.OrderingKey := pubsub.OrderingKey msg;
          PubSubMessage.PublishTime :=
            time.Format (pubsub.PublishTime msg) time.RFC3339 |};
     PubSubMessage.Subscription :=
       "projects/" +:+ Project cfg +:+ "/subscriptions/" +:+ Subscription cfg
  |}.

Section Program.

(** The surroundings of a run.
    - [json_Marshal] is [json.Marshal] at type [*PubSubMessage];
    - [url_Parse] tells whether [http.NewRequest] accepts a URL
      ([None]) or fails with an error;
    - [transport n req] is what [client.Do] returns for [req] when [n]
      requests were made before it: a response, or an error (connection
      failure, or the ten seconds of [client.Timeout] running out). *)
Variable json_Marshal : PubSubMessage.t -> string + error.
Variable url_Parse : string -> option error.
Variable transport : nat -> http.Request -> http.Response + error.

(** [http.NewRequest(method, url, strings.NewReader(body))]. *)
Definition http_NewRequest (method url body : string)
  : http.Request + error :=
  match url_Parse url with
  | Some err => inr err
  | None => inl {| http.Method := method; http.URL := url;
                   http.Header := []; http.Body := body |}
  end.

(** [client.Do(req)]. *)
Definition client_Do (req : http.Request) : M (http.Response + error) :=
  fun w =>
    (transport (roundtrips w) req,
     {| trace := trace w ++ [EvPOST req]; roundtrips := S (roundtrips w) |}).

(** [sendPOST] sends the transformed message to the specified URL via
    HTTP POST. *)
Definition sendPOST (url : string) (payload : PubSubMessage.t)
  : M (option error) :=
  match json_Marshal payload with
  | inr err => mret (Some (Errorf_w "failed to marshal JSON payload: " err))
  | inl jsonData =>
      match http_NewRequest "POST" url jsonData with
      | inr err => mret (Some (Errorf_w "failed to create POST request: " err))
      | inl req =>
          let req := http.Header_Set req "Content-Type" "application/json" in
          resp ← client_Do req;
          match resp with
          | inr err => mret (Some (Errorf_w "POST request failed: " err))
          | inl resp =>
              if (200 <=? http.StatusCode resp)%Z
                 && (http.StatusCode resp <? 300)%Z
              then
                log_Print "Message processed successfully." ;;
                mret None
              else
                mret (Some (Errorf_s "failed to process message. HTTP Status: "
                             (http.Status resp)))
          end
      end
  end.

(** One run of [sub.Receive(ctx, f)] as the program sees it: the
    messages the service delivers, in the order their callbacks run, and
    the error [Receive] returns in the end ([None] is nil;
    [Some context_Canceled] is the cancellation signal). *)
Record Receive_run := {
  deliveries : list pubsub.Message;
  termination : option error
}.

(** The callbacks of a run: delivery [h] carries its own
    acknowledgment handle. *)
Fixpoint Receive_loop (f : nat -> pubsub.Message -> M unit) (h : nat)
    (msgs : list pubsub.Message) : M unit :=
  match msgs with
  | [] => mret tt
  | msg :: msgs' => f h msg ;; Receive_loop f (S h) msgs'
  end.

Definition Receive (sub : Receive_run) (f : nat -> pubsub.Message -> M unit)
  : M (option error) :=
  Receive_loop f 0 (deliveries sub) ;; mret (termination sub).

(** The callback [consumeMessages] hands to [Receive]. *)
Definition handle (cfg : Config) (h : nat) (msg : pubsub.Message) : M unit :=
  let transformed := transformMessage msg cfg in
  err ← sendPOST (URL cfg) transformed;
  match err with
  | Some e =>
      log_Print ("Error processing message ID " +:+ pubsub.ID msg +:+ ": "
                 +:+ Error e) ;;
      (* Nack the message to allow redelivery *)
      emit (EvNack h)
  | None =>
      (* Acknowledge the message upon successful processing *)
      emit (EvAck h)
  end.

(** [consumeMessages] continuously receives and processes Pub/Sub
    messages. *)
Definition consumeMessages (sub : Receive_run) (cfg : Config)
  : M (option error) :=
  err ← Receive sub (handle cfg);
  match err with
  | Some e =>
      if negb (is_Canceled e)
      then mret (Some (Errorf_w "error receiving messages: " e))
      else mret None
  | None => mret None
  end.

End Program.

(** The world before the program has done anything. *)
Definition world0 : World := {| trace := []; roundtrips := 0 |}.

(** ** Reading a trace *)

(** The events that settle delivery [h]: its [Ack] and its [Nack]. *)
Definition settles (h : nat) (e : event) : bool :=
  match e with
  | EvAck h' | EvNack h' => Nat.eqb h h'
  | _ => false
  end.

Definition settled (h : nat) (tr : list event) : list event :=
  List.filter (settles h) tr.

(** Any [Ack] or [Nack], of whatever delivery. *)
Definition is_settlement (e : event) : bool :=
  match e with
  | EvAck _ | EvNack _ => true
  | _ => false
  end.

(** The characters of a string, as bytes. *)
Definition bytes_of (s : string) : list byte := list_byte_of_string s.

(** A string without the character [/]. *)
Fixpoint no_slash (s : string) : bool :=
  match s with
  | EmptyString => true
  | String c s' => negb (Ascii.eqb c "/"%char) && no_slash s'
  end.

(** The member [name] of the [message] object of an envelope's document. *)
Definition message_member (name : string) (p : PubSubMessage.t)
  : option json.value :=
  json.member "message" (json.of_PubSubMessage p) ≫= json.member name.

(** The raw message and the configuration of the end-to-end example. *)
Definition msg_m1 : pubsub.Message :=
  {| pubsub.ID := "m1";
     pubsub.Data := [x68; x65; x6c; x6c; x6f];
     pubsub.Attributes := Some {[ "k" := "v" ]};
     pubsub.PublishTime :=
       {| time.sec := 1704067200; time.nsec := 0; time.offset := 0 |};
     pubsub.OrderingKey := "" |}.

Definition cfg_ps : Config :=
  {| Project := "p"; Subscription := "s"; URL := "http://x/y" |}.

(** The example message published a fraction of a second later. *)
Definition msg_m1_later : pubsub.Message :=
  {| pubsub.ID := "m2";
     pubsub.Data := [];
     pubsub.Attributes := None;
     pubsub.PublishTime :=
       {| time.sec := 1704067200; time.nsec := 999999999; time.offset := 0 |};
     pubsub.OrderingKey := "key-1" |}.

(** Two configurations that name different (project, subscription) pairs. *)
Definition cfg_left : Config :=
  {| Project := "a/subscriptions/b"; Subscription := "c"; URL := "" |}.
Definition cfg_right : Config :=
  {| Project := "a"; Subscription := "b/subscriptions/c"; URL := "" |}.

(** The JSON string literal of a text that needs no escape. *)
Definition quoted (s : string) : string :=
  String json.dquote (s +:+ String json.dquote "").

(** The body the end-to-end example expects, and its document. *)
Definition body_m1 : string :=
  "{" +:+ quoted "message" +:+ ":{"
  +:+ quoted "attributes" +:+ ":{" +:+ quoted "k" +:+ ":" +:+ quoted "v" +:+ "},"
  +:+ quoted "data" +:+ ":" +:+ quoted "aGVsbG8=" +:+ ","
  +:+ quoted "messageId" +:+ ":" +:+ quoted "m1" +:+ ","
  +:+ quoted "publishTime" +:+ ":" +:+ quoted "2024-01-01T00:00:00Z" +:+ "},"
  +:+ quoted "subscription" +:+ ":" +:+ quoted "projects/p/subscriptions/s"
  +:+ "}".

Definition doc_m1 : json.value :=
  json.JObject
    [("message",
      json.JObject
        [("attributes", json.JObject [("k", json.JString "v")]);
         ("data", json.JString "aGVsbG8=");
         ("messageId", json.JString "m1");
         ("publishTime", json.JString "2024-01-01T00:00:00Z")]);
     ("subscription", json.JString "projects/p/subscriptions/s")].

(** The request [sendPOST] builds for a URL and a body. *)
Definition post_request (url body : string) : http.Request :=
  http.Header_Set
    {| http.Method := "POST"; http.URL := url; http.Header := [];
       http.Body := body |}
    "Content-Type" "application/json".

(** [resp.StatusCode >= 200 && resp.StatusCode < 300]. *)
Definition in_2xx (resp : http.Response) : Prop :=
  (200 <= http.StatusCode resp < 300)%Z.

(** Surroundings for examples: every URL is accepted; the endpoint
    answers the first request with 200, the second with 500, and is
    unreachable afterwards. *)
Definition marshal_fails : PubSubMessage.t -> string + error :=
  fun _ => inr (errorString "json: unsupported value").
Definition parse_ok : string -> option error := fun _ => None.
Definition endpoint (n : nat) (req : http.Request) : http.Response + error :=
  match n with
  | 0 => inl {| http.Status := "200 OK"; http.StatusCode := 200 |}
  | 1 => inl {| http.Status := "500 Internal Server Error";
                http.StatusCode := 500 |}
  | _ => inr (errorString "dial tcp: connection refused")
  end.

(** A run of three deliveries that ends with the cancellation signal. *)
Definition run3 : Receive_run :=
  {| deliveries := [msg_m1; msg_m1_later; msg_m1];
     termination := Some context_Canceled |}.

(** A run that ends before any message arrives. *)
Definition run_cancelled : Receive_run :=
  {| deliveries := []; termination := Some context_Canceled |}.

(** A run that the service ends with an error of its own. *)
Definition run_broken : Receive_run :=
  {| deliveries := [msg_m1];
     termination := Some (errorString "rpc error: code = Unavailable") |}.

(** ** Points of a run *)

Section Run.

Variable json_Marshal : PubSubMessage.t -> string + error.
Variable url_Parse : string -> option error.
Variable transport : nat -> http.Request -> http.Response + error.

(** The world when the callback of delivery [h] starts: the callbacks of
    the deliveries before it have run. *)
Definition world_before (sub : Receive_run) (cfg : Config) (h : nat) : World :=
  (Receive_loop (handle json_Marshal url_Parse transport cfg) 0
     (take h (deliveries sub)) world0).2.

(** What [sendPOST] returns in the callback of delivery [h]. *)
Definition delivery_result (sub : Receive_run) (cfg : Config) (h : nat)
    (msg : pubsub.Message) : option error :=
  (sendPOST json_Marshal url_Parse transport (URL cfg)
     (transformMessage msg cfg) (world_before sub cfg h)).1.

End Run.

(** What the callback does after [sendPOST] returned [err]. *)
Definition outcome_events (h : nat) (msg : pubsub.Message)
    (err : option error) : list event :=
  match err with
  | Some e =>
      [EvLog ("Error processing message ID " +:+ pubsub.ID msg +:+ ": "
              +:+ Error e);
       EvNack h]
  | None => [EvAck h]
  end.

(** The settlement the callback of delivery [h] issues after [sendPOST]
    returned [err]. *)
Definition verdict (h : nat) (err : option error) : event :=
  match err with
  | None => EvAck h
  | Some _ => EvNack h
  end.

(** What [consumeMessages] makes of the error [Receive] returned. *)
Definition loop_result (err : option error) : option error :=
  match err with
  | Some e =>
      if is_Canceled e then None
      else Some (wrapError ("error receiving messages: " +:+ Error e) e)
  | None => None
  end.

(** ** The RFC 3339 date-time syntax *)

Module rfc3339.

Definition is_digit (c : ascii) : bool :=
  (48 <=? N_of_ascii c)%N && (N_of_ascii c <=? 57)%N.

Inductive pattern :=
  | DIGIT
  | CHAR (c : ascii).

(** The rest of [s] after a prefix that matches [ps], if there is one. *)
Fixpoint strip (ps : list pattern) (s : string) : option string :=
  match ps with
  | [] => Some s
  | p :: ps' =>
      match s with
      | String c s' =>
          if match p with
             | DIGIT => is_digit c
             | CHAR d => Ascii.eqb c d
             end
          then strip ps' s'
          else None
      | EmptyString => None
      end
  end.

(** [full-date "T" partial-time] without a fraction:
    [4DIGIT "-" 2DIGIT "-" 2DIGIT "T" 2DIGIT ":" 2DIGIT ":" 2DIGIT]. *)
Definition date_time : list pattern :=
  [DIGIT; DIGIT; DIGIT; DIGIT; CHAR "-"; DIGIT; DIGIT; CHAR "-"; DIGIT; DIGIT;
   CHAR "T"; DIGIT; DIGIT; CHAR ":"; DIGIT; DIGIT; CHAR ":"; DIGIT; DIGIT]%char.

(** [time-numoffset] after its sign: [2DIGIT ":" 2DIGIT]. *)
Definition numoffset : list pattern :=
  [DIGIT; DIGIT; CHAR ":"; DIGIT; DIGIT]%char.

(** [time-offset = "Z" / ("+" / "-") 2DIGIT ":" 2DIGIT]. *)
Definition is_offset (s : string) : bool :=
  match s with
  | String c rest =>
      if Ascii.eqb c "Z" then String.eqb rest ""
      else if Ascii.eqb c "+" || Ascii.eqb c "-" then
        match strip numoffset rest with
        | Some rest' => String.eqb rest' ""
        | None => false
        end
      else false
  | EmptyString => false
  end.

(** A date-time with whole seconds. *)
Definition is_date_time (s : string) : bool :=
  match strip date_time s with
  | Some rest => is_offset rest
  | None => false
  end.

End rfc3339.

(** ** Overlapping callbacks *)

(** [interleaving ls l]: the list [l] merges the lists [ls], each of them
    in its own order. *)
Inductive interleaving {A : Type} : list (list A) -> list A -> Prop :=
  | interleaving_done (ls : list (list A)) :
      Forall (fun l => l = []) ls -> interleaving ls []
  | interleaving_step (ls : list (list A)) (i : nat) (x : A)
      (l tr : list A) :
      ls !! i = Some (x :: l) ->
      interleaving (<[i := l]> ls) tr ->
      interleaving ls (x :: tr).

Section Threads.

Variable json_Marshal : PubSubMessage.t -> string + error.
Variable url_Parse : string -> option error.
Variable transport : nat -> http.Request -> http.Response + error.

(** The events of the callback of delivery [h] when it runs on its own
    and its request is the one the transport numbers [n]. *)
Definition thread_events (cfg : Config) (n h : nat) (msg : pubsub.Message)
  : list event :=
  trace (handle json_Marshal url_Parse transport cfg h msg
           {| trace := []; roundtrips := n |}).2.

(** What [sendPOST] returns in that callback. *)
Definition thread_result (cfg : Config) (n : nat) (msg : pubsub.Message)
  : option error :=
  (sendPOST json_Marshal url_Parse transport (URL cfg)
     (transformMessage msg cfg) {| trace := []; roundtrips := n |}).1.

(** The callbacks of a run as threads, the request of delivery [h]
    being numbered [ns h]. *)
Definition threads (sub : Receive_run) (cfg : Config) (ns : nat -> nat)
  : list (list event) :=
  imap (fun h msg => thread_events cfg (ns h) h msg) (deliveries sub).

End Threads.

(** Two deliveries of the example message whose callbacks overlap: both
    requests go out before either message is settled, and the second
    delivery is settled first. *)
Definition run2 : Receive_run :=
  {| deliveries := [msg_m1; msg_m1]; termination := None |}.

Definition line_500 : string :=
  "Error processing message ID m1: failed to process message. HTTP Status: 500 Internal Server Error".

Definition overlap2 : list event :=
  [EvPOST (post_request "http://x/y" body_m1);
   EvPOST (post_request "http://x/y" body_m1);
   EvLog line_500; EvNack 1;
   EvLog "Message processed successfully."; EvAck 0].

(** ** flag: the command line *)

Module flag.

(** The errors of [FlagSet.Parse]: the sentinel [ErrHelp], or a message
    built by [failf]. *)
Inductive parse_error :=
  | ErrHelp
  | failf (msg : string).

(** What one argument is, by its syntax alone (the first half of
    [parseOne]). *)
Inductive shape :=
  | not_a_flag                          (* shorter than two, or no leading [-] *)
  | terminator                          (* [--] *)
  | bad_syntax
  | a_flag (name : string) (value : option string).

(** [s] cut at its first [=]. *)
Fixpoint cut_equals (s : string) : option (string * string) :=
  match s with
  | EmptyString => None
  | String c s' =>
      if Ascii.eqb c "="%char then Some (EmptyString, s')
      else
        match cut_equals s' with
        | Some (n, v) => Some (String c n, v)
        | None => None
        end
  end.

Definition classify (s : string) : shape :=
  match s with
  | String c0 (String c1 tail) =>
      if negb (Ascii.eqb c0 "-"%char) then not_a_flag
      else if Ascii.eqb c1 "-"%char && String.eqb tail "" then terminator
      else
        let name := if Ascii.eqb c1 "-"%char then tail else String c1 tail in
        match name with
        | EmptyString => bad_syntax
        | String n0 rest =>
            if Ascii.eqb n0 "-"%char || Ascii.eqb n0 "="%char then bad_syntax
            else
              (* an equals sign cannot be first *)
              match cut_equals rest with
              | Some (n, v) => a_flag (String n0 n) (Some v)
              | None => a_flag name None
              end
        end
  | _ => not_a_flag
  end.

(** [FlagSet.Parse] for a flag set whose flags are all string flags:
    [formal] maps the defined names to their current values.  The result
    is the values after parsing and the arguments left over, or the
    error of the first argument that fails. *)
Fixpoint Parse (formal : gmap string string) (args : list string)
  : gmap string string * list string + parse_error :=
  match args with
  | [] => inl (formal, [])
  | s :: rest =>
      match classify s with
      | not_a_flag => inl (formal, args)
      | terminator => inl (formal, rest)
      | bad_syntax => inr (failf ("bad flag syntax: " +:+ s))
      | a_flag name value =>
          match formal !! name with
          | None =>
              if String.eqb name "help" || String.eqb name "h"
              then inr ErrHelp
              else inr (failf ("flag provided but not defined: -" +:+ name))
          | Some _ =>
              match value with
              | Some v => Parse (<[name := v]> formal) rest
              | None =>
                  (* the value is the next argument *)
                  match rest with
                  | v :: rest' => Parse (<[name := v]> formal) rest'
                  | [] => inr (failf ("flag needs an argument: -" +:+ name))
                  end
              end
          end
      end
  end.

End flag.

(** What [parseFlags] comes to: a configuration, an error, or the exit
    of the process from inside [flag.Parse] (whose command-line flag set
    exits with status 0 when help was asked for and 2 on any other
    parse error). *)
Inductive parseFlags_result :=
  | Parsed (cfg : Config)
  | Invalid (err : error)
  | Exited (code : Z).

Definition default_url : string := "http://localhost:8080".

(** The three flags [parseFlags] defines, with their defaults. *)
Definition defined_flags : gmap string string :=
  <["project" := ""]> (<["subscription" := ""]> (<["url" := default_url]> ∅)).

(** [parseFlags] parses and validates command-line arguments. *)
Definition parseFlags (args : list string) : parseFlags_result :=
  match flag.Parse defined_flags args with
  | inr flag.ErrHelp => Exited 0
  | inr (flag.failf _) => Exited 2
  | inl (values, _) =>
      let project := default "" (values !! "project") in
      let subscription := default "" (values !! "subscription") in
      let url := default "" (values !! "url") in
      if String.eqb project "" then
        Invalid (errorString "missing required argument: --project")
      else if String.eqb subscription "" then
        Invalid (errorString "missing required argument: --subscription")
      else
        Parsed {| Project := project; Subscription := subscription;
                  URL := url |}
  end.

(** A string that begins with [-]. *)
Definition starts_with_dash (s : string) : bool :=
  match s with
  | String c _ => Ascii.eqb c "-"%char
  | EmptyString => false
  end.

(** ** The process: set-up and [main] *)

(** What the main goroutine does to the outside: the events of the
    delivery loop, and the calls on the Pub/Sub client and the context. *)
Inductive proc_event :=
  | PEv (e : event)
  | PNewClient (project : string)      (* [pubsub.NewClient(ctx, project)] *)
  | PExists (subscription : string)    (* [sub.Exists(ctx)] *)
  | PClose                             (* [client.Close()] *)
  | PCancel.                           (* [cancel()] *)

(** A computation of the process: its events, in order, and its result. *)
Definition P (A : Type) : Type := list proc_event * A.

Global Instance P_ret : MRet P := fun A (a : A) => ([], a).

Global Instance P_bind : MBind P :=
  fun A B (k : A -> P B) (m : P A) =>
    let (evs, a) := m in let (evs', b) := k a in (evs ++ evs', b).

Definition pemit (e : proc_event) : P unit := ([e], tt).

Definition plog (line : string) : P unit := pemit (PEv (EvLog line)).

(** [log.Fatalf]: the line, then [os.Exit(1)]; deferred calls do not
    run. *)
Definition log_Fatalf (line : string) : P Z := plog line ;; mret 1%Z.

(** A computation of the delivery loop, run from the start of the
    process. *)
Definition from_start {A} (m : M A) : P A :=
  let (a, w) := m world0 in (PEv <$> trace w, a).

Section Process.

(** The surroundings of the process.
    - [pubsub_NewClient project] is the error of [pubsub.NewClient], or
      [None] when it gives a client;
    - [sub_Exists project subscription] is what [sub.Exists] returns;
    - [client_Close] is what [client.Close()] returns;
    - [service project subscription] is the run of [Receive] on that
      subscription;
    - [url_Parse] and [transport] are as for [sendPOST]. *)
Variable pubsub_NewClient : string -> option error.
Variable sub_Exists : string -> string -> bool + error.
Variable client_Close : option error.
Variable service : string -> string -> Receive_run.
Variable url_Parse : string -> option error.
Variable transport : nat -> http.Request -> http.Response + error.

(** [setupPubSubClient] initializes the Pub/Sub client and subscription. *)
Definition setupPubSubClient (cfg : Config) : P (Receive_run + error) :=
  pemit (PNewClient (Project cfg)) ;;
  match pubsub_NewClient (Project cfg) with
  | Some err =>
      mret (inr (Errorf_w "failed to create Pub/Sub client: " err))
  | None =>
      let sub := service (Project cfg) (Subscription cfg) in
      pemit (PExists (Subscription cfg)) ;;
      match sub_Exists (Project cfg) (Subscription cfg) with
      | inr err =>
          pemit PClose ;;
          mret (inr (Errorf_w "failed to verify subscription existence: "
                       err))
      | inl false =>
          pemit PClose ;;
          mret (inr (errorString ("subscription " +:+ Subscription cfg
                                  +:+ " does not exist")))
      | inl true =>
          plog ("Connected to Pub/Sub subscription: " +:+ Subscription cfg) ;;
          mret (inl sub)
      end
  end.

(** The deferred calls of [main], last registered first: close the
    client, logging a failure, then cancel the context. *)
Definition deferred : P unit :=
  pemit PClose ;;
  match client_Close with
  | Some err => plog ("Error closing Pub/Sub client: " +:+ Error err)
  | None => mret tt
  end ;;
  pemit PCancel.

(** [main], the main goroutine: its events and the exit status of the
    process.  The goroutine started for [handleShutdown] waits for an
    interrupt and then cancels the context; it reaches this goroutine
    only through the end of [Receive], which [service] gives, and its own
    log line is not among these events. *)
Definition main (args : list string) : P Z :=
  (* Parse command-line arguments *)
  match parseFlags args with
  | Exited code => mret code
  | Invalid err => log_Fatalf ("Argument parsing error: " +:+ Error err)
  | Parsed cfg =>
      plog ("Starting Pub/Sub Tester. Project: " +:+ Project cfg
            +:+ ", Subscription: " +:+ Subscription cfg
            +:+ ", POST URL: " +:+ URL cfg) ;;
      (* Initialize Pub/Sub client and subscription *)
      r ← setupPubSubClient cfg;
      match r with
      | inr err => log_Fatalf ("Pub/Sub setup error: " +:+ Error err)
      | inl sub =>
          (* Start consuming messages *)
          r ← from_start (consumeMessages json.Marshal url_Parse transport
                            sub cfg);
          match r with
          | Some err =>
              log_Fatalf ("Message consumption error: " +:+ Error err)
          | None =>
              plog "Graceful shutdown complete. Exiting application." ;;
              deferred ;;
              mret 0%Z
          end
      end
  end.

End Process.

(** ** Reading the events of the process *)

Definition is_close (e : proc_event) : bool :=
  match e with
  | PClose => true
  | _ => false
  end.

Definition is_service_call (e : proc_event) : bool :=
  match e with
  | PNewClient _ | PExists _ | PClose => true
  | _ => false
  end.

(** The events of the delivery loop among the events of the process. *)
Definition loop_events (evs : list proc_event) : list event :=
  omap (fun e => match e with PEv e' => Some e' | _ => None end) evs.

Definition is_POST (e : event) : bool :=
  match e with
  | EvPOST _ => true
  | _ => false
  end.

Definition is_log (e : event) : bool :=
  match e with
  | EvLog _ => true
  | _ => false
  end.

(** The number of requests in a trace. *)
Definition requests (tr : list event) : nat := length (List.filter is_POST tr).

(** ** Text that needs no escape *)

(** The characters [appendString] copies as they are: ASCII, and in
    [htmlSafeSet]. *)
Definition plain (c : ascii) : bool :=
  (N_of_ascii c <? 128)%N && json.htmlSafe (N_of_ascii c).

Fixpoint all_plain (s : string) : bool :=
  match s with
  | EmptyString => true
  | String c s' => plain c && all_plain s'
  end.

(** ** Reading a date-time back *)

Module instant.

Local Open Scope Z_scope.

(** The day number (days since 1970-01-01) of a civil date of the
    proleptic Gregorian calendar. *)
Definition days_from_civil (y m d : Z) : Z :=
  let y' := if m <=? 2 then y - 1 else y in
  let era := y' / 400 in
  let yoe := y' - era * 400 in
  let doy := (153 * (if 2 <? m then m - 3 else m + 9) + 2) / 5 + d - 1 in
  let doe := yoe * 365 + yoe / 4 - yoe / 100 + doy in
  era * 146097 + doe - 719468.

Definition digit_value (c : ascii) : Z := Z.of_N (N_of_ascii c) - 48.

Definition two (a b : ascii) : Z := 10 * digit_value a + digit_value b.

(** The offset a [time-offset] denotes, in seconds east of UTC. *)
Definition offset_of (zone : string) : Z :=
  match zone with
  | String sign (String a (String b (String _ (String c (String d _))))) =>
      (if Ascii.eqb sign "-" then -1 else 1)
      * (two a b * 3600 + two c d * 60)
  | _ => 0
  end.

(** The instant an RFC 3339 date-time with whole seconds denotes, in
    seconds since the Unix epoch; [None] for any other string. *)
Definition of_date_time (s : string) : option Z :=
  if rfc3339.is_date_time s then
    match s with
    | String y1 (String y2 (String y3 (String y4 (String _
      (String m1 (String m2 (String _
      (String d1 (String d2 (String _
      (String h1 (String h2 (String _
      (String n1 (String n2 (String _
      (String s1 (String s2 zone)))))))))))))))))) =>
        let y := 100 * two y1 y2 + two y3 y4 in
        Some (days_from_civil y (two m1 m2) (two d1 d2) * 86400
              + two h1 h2 * 3600 + two n1 n2 * 60 + two s1 s2
              - offset_of zone)
    | _ => None
    end
  else None.

End instant.

(** An argument that ends the flags without being one: it does not
    begin with [-], or is [-] alone. *)
Definition positional (s : string) : Prop :=
  starts_with_dash s = false \/ s = "-".

(** A configuration with another project. *)
Definition with_project (cfg : Config) (p : string) : Config :=
  {| Project := p; Subscription := Subscription cfg; URL := URL cfg |}.

(** The line [main] logs when it starts. *)
Definition starting_line (cfg : Config) : string :=
  "Starting Pub/Sub Tester. Project: " +:+ Project cfg
  +:+ ", Subscription: " +:+ Subscription cfg
  +:+ ", POST URL: " +:+ URL cfg.

Definition closes (evs : list proc_event) : nat :=
  length (List.filter is_close evs).

(** ** Surroundings and inputs for examples *)

(** A URL parser that rejects every URL. *)
Definition parse_bad : string -> option error :=
  fun _ => Some (errorString "parse: missing protocol scheme").

(** A service that makes clients, knows every subscription, closes
    cleanly, and plays [run3] on any subscription. *)
Definition newclient_ok : string -> option error := fun _ => None.
Definition exists_yes : string -> string -> bool + error :=
  fun _ _ => inl true.
Definition exists_no : string -> string -> bool + error :=
  fun _ _ => inl false.
Definition close_ok : option error := None.
Definition service3 : string -> string -> Receive_run := fun _ _ => run3.
Definition service_broken : string -> string -> Receive_run :=
  fun _ _ => run_broken.

(** A command line for [cfg_ps]. *)
Definition args_ps : list string :=
  ["--project=p"; "--subscription=s"; "--url=http://x/y"].

(** The flag values after [--project=p --subscription=s]. *)
Definition flags_ps : gmap string string :=
  <["subscription" := "s"]> (<["project" := "p"]> defined_flags).

(** ** Dates of the calendar *)

Module calendar.

Local Open Scope Z_scope.

Definition leap (y : Z) : bool :=
  ((y mod 4 =? 0) && negb (y mod 100 =? 0)) || (y mod 400 =? 0).

Definition days_in_month (y m : Z) : Z :=
  if m =? 2 then (if leap y then 29 else 28)
  else if (m =? 4) || (m =? 6) || (m =? 9) || (m =? 11) then 30
  else 31.

(** A [time-offset] whose hour and minute are in range. *)
Definition valid_offset (zone : string) : bool :=
  match zone with
  | String sign (String a (String b (String _ (String c (String d _))))) =>
      (instant.two a b <=? 23) && (instant.two c d <=? 59)
  | _ => true
  end.

(** An RFC 3339 date-time with whole seconds that names a day of the
    calendar and a second of the clock: month 01 to 12, day 01 to the
    length of that month in that year, hour 00 to 23, minute and second
    00 to 59, and an offset in range. *)
Definition valid_date_time (s : string) : bool :=
  rfc3339.is_date_time s &&
  match s with
  | String y1 (String y2 (String y3 (String y4 (String _
    (String m1 (String m2 (String _
    (String d1 (String d2 (String _
    (String h1 (String h2 (String _
    (String n1 (String n2 (String _
    (String s1 (String s2 zone)))))))))))))))))) =>
      let y := 100 * instant.two y1 y2 + instant.two y3 y4 in
      let m := instant.two m1 m2 in
      let d := instant.two d1 d2 in
      (1 <=? m) && (m <=? 12) && (1 <=? d) && (d <=? days_in_month y m)
      && (instant.two h1 h2 <=? 23) && (instant.two n1 n2 <=? 59)
      && (instant.two s1 s2 <=? 59) && valid_offset zone
  | _ => false
  end.

(** The second of local time an RFC 3339 date-time with whole seconds
    names: the date and the clock as written, counted from 1970-01-01
    00:00:00 of the same zone, the offset not applied. *)
Definition local_second (s : string) : option Z :=
  match s with
  | String y1 (String y2 (String y3 (String y4 (String _
    (String m1 (String m2 (String _
    (String d1 (String d2 (String _
    (String h1 (String h2 (String _
    (String n1 (String n2 (String _
    (String s1 (String s2 zone)))))))))))))))))) =>
      let y := 100 * instant.two y1 y2 + instant.two y3 y4 in
      Some (instant.days_from_civil y (instant.two m1 m2) (instant.two d1 d2)
              * 86400
            + instant.two h1 h2 * 3600 + instant.two n1 n2 * 60
            + instant.two s1 s2)
  | _ => None
  end.

End calendar.

(** The example message published one second later. *)
Definition msg_m1_next : pubsub.Message :=
  {| pubsub.ID := "m3";
     pubsub.Data := [];
     pubsub.Attributes := None;
     pubsub.PublishTime :=
       {| time.sec := 1704067201; time.nsec := 0; time.offset := 0 |};
     pubsub.OrderingKey := "" |}.

(** The text of a publish time with a four-digit year and a zone offset
    of whole minutes within a day. *)
Definition plain_time (t : time.Time) : Prop :=
  (0 <= time.Year t <= 9999)%Z
  /\ (-86400 < time.offset t < 86400)%Z
  /\ Z.rem (time.offset t) 60 = 0%Z.

(** * Properties *)

(** Linear arithmetic with division and remainder by constants. *)
Ltac lia_div := zify; Z.to_euclidean_division_equations; lia.

(** ** base64: decoding inverts encoding *)

Module base64_facts.
Import base64.

Local Open Scope N_scope.

Lemma decodeMap_encode (i : N) : i < 64 -> decodeMap (encode i) = i.
Proof.
  intros Hi. destruct i as [|p]; [reflexivity|].
  do 6 (destruct p as [p|p|]; try reflexivity; try lia).
Qed.

Lemma lor_add (a b c k : N) :
  a = c * 2 ^ k -> b < 2 ^ k -> N.lor a b = a + b.
Proof.
  intros -> Hb.
  rewrite <- N.lxor_lor, <- N.add_nocarry_lxor; try reflexivity.
  all: apply N.bits_inj; intros n; rewrite N.land_spec, N.bits_0;
    destruct (N.lt_ge_cases n k) as [Hn|Hn].
  all: try (rewrite N.mul_pow2_bits_low by assumption; reflexivity).
  all: rewrite (N.testbit_eqb b), (N.div_small b (2 ^ n)), Bool.andb_false_r;
    try reflexivity.
  all: apply N.lt_le_trans with (2 ^ k); [assumption|];
    apply N.pow_le_mono_r; lia.
Qed.

Lemma shiftr_div (x k : N) : N.shiftr x k = x / 2 ^ k.
Proof. apply N.shiftr_div_pow2. Qed.

Lemma shiftl_mul (x k : N) : N.shiftl x k = x * 2 ^ k.
Proof. apply N.shiftl_mul_pow2. Qed.

Lemma land_63 (x : N) : N.land x 63 = x mod 64.
Proof. change 63 with (N.ones 6). rewrite N.land_ones. reflexivity. Qed.

Lemma land_255 (x : N) : N.land x 255 = x mod 256.
Proof. change 255 with (N.ones 8). rewrite N.land_ones. reflexivity. Qed.

Lemma uint_lt (b : byte) : uint b < 256.
Proof. pose proof (Byte.to_N_bounded b). unfold uint. lia. Qed.

Lemma byte_of_uint (b : byte) (x : N) :
  x mod 256 = uint b -> byte_of_N x = b.
Proof.
  intros H. unfold byte_of_N. rewrite land_255, H.
  unfold uint. rewrite Byte.of_to_N. reflexivity.
Qed.

(** The 24-bit value of a full group, as arithmetic. *)
Lemma val3 (b0 b1 b2 : byte) :
  N.lor (N.lor (N.shiftl (uint b0) 16) (N.shiftl (uint b1) 8)) (uint b2)
  = uint b0 * 65536 + uint b1 * 256 + uint b2.
Proof.
  pose proof (uint_lt b0). pose proof (uint_lt b1). pose proof (uint_lt b2).
  rewrite !shiftl_mul.
  rewrite (lor_add _ (uint b1 * 2 ^ 8) (uint b0) 16) by lia.
  rewrite (lor_add _ (uint b2) (uint b0 * 256 + uint b1) 8) by lia.
  lia.
Qed.

Lemma quantum_val_arith (d0 d1 d2 d3 : N) :
  d1 < 64 -> d2 < 64 -> d3 < 64 ->
  quantum_val d0 d1 d2 d3 = d0 * 262144 + d1 * 4096 + d2 * 64 + d3.
Proof.
  intros H1 H2 H3. unfold quantum_val. rewrite !shiftl_mul.
  rewrite (lor_add _ (d1 * 2 ^ 12) d0 18) by lia.
  rewrite (lor_add _ (d2 * 2 ^ 6) (d0 * 64 + d1) 12) by lia.
  rewrite (lor_add _ d3 (d0 * 4096 + d1 * 64 + d2) 6) by lia.
  lia.
Qed.

Lemma quantum3 (b0 b1 b2 : byte) :
  let val := uint b0 * 65536 + uint b1 * 256 + uint b2 in
  quantum_bytes [N.land (N.shiftr val 18) 63; N.land (N.shiftr val 12) 63;
                 N.land (N.shiftr val 6) 63; N.land val 63]
  = [b0; b1; b2].
Proof.
  intros val. pose proof (uint_lt b0). pose proof (uint_lt b1).
  pose proof (uint_lt b2).
  unfold quantum_bytes. rewrite !land_63, !shiftr_div.
  rewrite quantum_val_arith by (apply N.mod_lt; lia).
  f_equal; [|f_equal; [|f_equal]]; apply byte_of_uint; subst val; lia_div.
Qed.

Lemma quantum2 (b0 b1 : byte) :
  let val := uint b0 * 65536 + uint b1 * 256 in
  quantum_bytes [N.land (N.shiftr val 18) 63; N.land (N.shiftr val 12) 63;
                 N.land (N.shiftr val 6) 63]
  = [b0; b1].
Proof.
  intros val. pose proof (uint_lt b0). pose proof (uint_lt b1).
  unfold quantum_bytes. rewrite !land_63, !shiftr_div.
  rewrite quantum_val_arith by (try apply N.mod_lt; lia).
  f_equal; [|f_equal]; apply byte_of_uint; subst val; lia_div.
Qed.

Lemma quantum1 (b0 : byte) :
  let val := uint b0 * 65536 in
  quantum_bytes [N.land (N.shiftr val 18) 63; N.land (N.shiftr val 12) 63]
  = [b0].
Proof.
  intros val. pose proof (uint_lt b0).
  unfold quantum_bytes. rewrite !land_63, !shiftr_div.
  rewrite quantum_val_arith by (try apply N.mod_lt; lia).
  f_equal; apply byte_of_uint; subst val; lia_div.
Qed.

Lemma val2 (b0 b1 : byte) :
  N.lor (N.shiftl (uint b0) 16) (N.shiftl (uint b1) 8)
  = uint b0 * 65536 + uint b1 * 256.
Proof.
  pose proof (uint_lt b0). pose proof (uint_lt b1).
  rewrite !shiftl_mul.
  rewrite (lor_add _ (uint b1 * 2 ^ 8) (uint b0) 16) by lia.
  lia.
Qed.

Lemma val1 (b0 : byte) : N.shiftl (uint b0) 16 = uint b0 * 65536.
Proof. rewrite shiftl_mul. lia. Qed.

Lemma sextet_lt (x : N) : N.land x 63 < 64.
Proof. rewrite land_63. apply N.mod_lt. lia. Qed.

(** One alphabet character extends the quantum being read. *)
Lemma decode_digit (d : N) (rest : string) (dbuf : list N) :
  d < 64 ->
  decode (String (encode d) rest) dbuf =
    if Nat.eqb (length (dbuf ++ [d])) 4
    then option_map (app (quantum_bytes (dbuf ++ [d]))) (decode rest [])
    else decode rest (dbuf ++ [d]).
Proof.
  intros Hd. cbn [decode]. rewrite (decodeMap_encode d Hd).
  destruct (N.eqb_spec d 255) as [->|_]; [lia|]. reflexivity.
Qed.

Lemma decode_encode_group (b0 b1 b2 : byte) (rest : list byte) :
  decode (EncodeToString (b0 :: b1 :: b2 :: rest)) [] =
  option_map (app [b0; b1; b2]) (decode (EncodeToString rest) []).
Proof.
  cbn [EncodeToString]. rewrite val3.
  rewrite !decode_digit by apply sextet_lt. cbn [app length Nat.eqb].
  rewrite quantum3. reflexivity.
Qed.

Lemma decode_encode_aux (src : list byte) :
  decode (EncodeToString src) [] = Some src
  /\ (forall a, decode (EncodeToString (a :: src)) [] = Some (a :: src))
  /\ (forall a b, decode (EncodeToString (a :: b :: src)) []
                  = Some (a :: b :: src)).
Proof.
  induction src as [|c src (IH0 & IH1 & IH2)].
  - split; [reflexivity|]. split.
    + intros a. cbn [EncodeToString]. rewrite val1.
      rewrite !decode_digit by apply sextet_lt. cbn [app length Nat.eqb].
      cbn [decode]. change (decodeMap padChar) with 255. cbn.
      apply (f_equal Some), quantum1.
    + intros a b. cbn [EncodeToString]. rewrite val2.
      rewrite !decode_digit by apply sextet_lt. cbn [app length Nat.eqb].
      cbn [decode]. change (decodeMap padChar) with 255. cbn.
      apply (f_equal Some), quantum2.
  - split; [exact (IH1 c)|]. split; [exact (fun a => IH2 a c)|].
    intros a b. rewrite decode_encode_group, IH0. reflexivity.
Qed.

Lemma DecodeString_EncodeToString (src : list byte) :
  DecodeString (EncodeToString src) = Some src.
Proof. apply decode_encode_aux. Qed.

End base64_facts.

(** The encoding of [n] bytes has [4 * ceil(n / 3)] characters. *)
Lemma EncodeToString_length (src : list byte) :
  String.length (base64.EncodeToString src)
  = (4 * ((length src + 2) / 3))%nat.
Proof.
  assert (H : forall src : list byte,
    (String.length (base64.EncodeToString src)
       = 4 * ((length src + 2) / 3)
     /\ (forall a, String.length (base64.EncodeToString (a :: src))
                   = 4 * ((length (a :: src) + 2) / 3))
     /\ (forall a b, String.length (base64.EncodeToString (a :: b :: src))
                     = 4 * ((length (a :: b :: src) + 2) / 3)))%nat).
  { clear src. induction src as [|c src (IH0 & IH1 & IH2)].
    - repeat split; reflexivity.
    - split; [exact (IH1 c)|]. split; [exact (fun a => IH2 a c)|].
      intros a b. cbn [base64.EncodeToString String.length length].
      rewrite IH0.
      replace (S (S (S (length src))) + 2)%nat
        with (length src + 2 + 1 * 3)%nat by lia.
      rewrite Nat.div_add by lia. lia. }
  apply H.
Qed.

Lemma bytes_of_length (s : string) : length (bytes_of s) = String.length s.
Proof.
  unfold bytes_of, list_byte_of_string.
  induction s as [|c s IH]; [reflexivity|]. cbn. now rewrite IH.
Qed.

(** A non-empty payload never appears as it is: its encoding is longer. *)
Lemma EncodeToString_not_raw (src : list byte) :
  src <> [] -> bytes_of (base64.EncodeToString src) <> src.
Proof.
  intros Hne Heq. apply (f_equal (@length byte)) in Heq.
  rewrite bytes_of_length, EncodeToString_length in Heq.
  destruct src as [|b src]; [congruence|]. cbn [length] in Heq.
  pose proof (Nat.div_mod_eq (S (length src) + 2) 3) as Hd.
  pose proof (Nat.mod_upper_bound (S (length src) + 2) 3). lia.
Qed.

(** ** The transformer *)

Lemma message_member_data (p : PubSubMessage.t) :
  message_member "data" p
  = Some (json.JString (PubSubMessage.Data (PubSubMessage.Message p))).
Proof. reflexivity. Qed.

(** C2: for every raw message with payload bytes B and every
    configuration, the [data] field of the envelope built by
    [transformMessage], and the [data] member of its JSON document, is the
    base64 encoding of B; decoding it gives back exactly B; and for a
    non-empty B it is not the raw bytes. *)
Theorem C2_data_is_base64_of_payload (msg : pubsub.Message) (cfg : Config) :
  let env := transformMessage msg cfg in
  let data := PubSubMessage.Data (PubSubMessage.Message env) in
  data = base64.EncodeToString (pubsub.Data msg)
  /\ message_member "data" env
     = Some (json.JString (base64.EncodeToString (pubsub.Data msg)))
  /\ base64.DecodeString data = Some (pubsub.Data msg)
  /\ (pubsub.Data msg <> [] -> bytes_of data <> pubsub.Data msg).
Proof.
  cbn zeta. split; [reflexivity|]. split; [apply message_member_data|].
  split.
  - apply base64_facts.DecodeString_EncodeToString.
  - apply EncodeToString_not_raw.
Qed.

Lemma C2_witness :
  PubSubMessage.Data (PubSubMessage.Message (transformMessage msg_m1 cfg_ps))
    = "aGVsbG8="
  /\ base64.DecodeString "aGVsbG8=" = Some [x68; x65; x6c; x6c; x6f]
  /\ bytes_of "aGVsbG8=" <> [x68; x65; x6c; x6c; x6f].
Proof.
  destruct (C2_data_is_base64_of_payload msg_m1 cfg_ps) as (H1 & _ & H3 & H4).
  split; [exact H1|]. split; [exact H3|].
  apply H4. discriminate.
Defined.

(** *** Timestamps *)

Lemma formatChunk_whole_seconds (t1 t2 : time.Time) (c : time.chunk) :
  time.sec t1 = time.sec t2 -> time.offset t1 = time.offset t2 ->
  time.formatChunk t1 c = time.formatChunk t2 c.
Proof.
  intros Hs Ho. destruct c; cbn [time.formatChunk];
    unfold time.Year, time.Month, time.Day, time.Hour, time.Minute,
      time.Second; rewrite ?Hs, ?Ho; reflexivity.
Qed.

Lemma Format_whole_seconds (t1 t2 : time.Time) (layout : list time.chunk) :
  time.sec t1 = time.sec t2 -> time.offset t1 = time.offset t2 ->
  time.Format t1 layout = time.Format t2 layout.
Proof.
  intros Hs Ho. unfold time.Format.
  induction layout as [|c layout IH]; [reflexivity|].
  cbn [fold_right]. rewrite IH.
  rewrite (formatChunk_whole_seconds t1 t2 c Hs Ho). reflexivity.
Qed.

Example format_2024 :
  time.Format {| time.sec := 1704067200; time.nsec := 0; time.offset := 0 |}
    time.RFC3339 = "2024-01-01T00:00:00Z".
Proof. vm_compute. reflexivity. Qed.

Example format_leap :
  time.Format {| time.sec := 951827696; time.nsec := 5; time.offset := 19800 |}
    time.RFC3339 = "2000-02-29T18:04:56+05:30".
Proof. vm_compute. reflexivity. Qed.

Example format_neg :
  time.Format {| time.sec := -1; time.nsec := 5; time.offset := -3600 |}
    time.RFC3339 = "1969-12-31T22:59:59-01:00".
Proof. vm_compute. reflexivity. Qed.

Example format_far :
  time.Format {| time.sec := 253402300800; time.nsec := 0; time.offset := 0 |}
    time.RFC3339 = "10000-01-01T00:00:00Z".
Proof. vm_compute. reflexivity. Qed.

Section time_facts.

Local Open Scope Z_scope.

Lemma is_digit_digit (d : Z) :
  0 <= d < 10 -> rfc3339.is_digit (digit d) = true.
Proof.
  intros H.
  assert (Hd : d = 0 \/ d = 1 \/ d = 2 \/ d = 3 \/ d = 4 \/ d = 5 \/ d = 6
               \/ d = 7 \/ d = 8 \/ d = 9) by lia.
  repeat (destruct Hd as [->|Hd]; [reflexivity|]). subst d. reflexivity.
Qed.

Lemma appendInt_2 (x : Z) :
  0 <= x < 100 ->
  time.appendInt x 2 = String (digit (x / 10)) (String (digit (x mod 10)) "").
Proof.
  intros H. unfold time.appendInt.
  destruct (Z.ltb_spec x 0); [lia|]. rewrite Z.abs_eq by lia.
  destruct (Z.ltb_spec x 100); [|lia]. reflexivity.
Qed.

Lemma appendInt_4 (x : Z) :
  0 <= x < 10000 ->
  time.appendInt x 4
  = String (digit (x / 1000))
      (String (digit (x / 100 mod 10))
         (String (digit (x / 10 mod 10)) (String (digit (x mod 10)) ""))).
Proof.
  intros H. unfold time.appendInt.
  destruct (Z.ltb_spec x 0); [lia|]. rewrite Z.abs_eq by lia.
  destruct (Z.ltb_spec x 10000); [|lia]. reflexivity.
Qed.

Lemma civil_range (days : Z) :
  1 <= (time.civil days).1.2 <= 12 /\ 1 <= (time.civil days).2 <= 31.
Proof.
  unfold time.civil. cbn [fst snd].
  set (doe := (days + 719468) mod 146097).
  set (yoe := (doe - doe / 1460 + doe / 36524 - doe / 146096) / 365).
  set (doy := doe - (365 * yoe + yoe / 4 - yoe / 100)).
  assert (Hdoe : 0 <= doe < 146097) by (apply Z.mod_pos_bound; lia).
  assert (Hdoy : 0 <= doy <= 365) by (subst doy yoe; lia_div).
  clearbody doy. clear yoe.
  set (mp := (5 * doy + 2) / 153).
  assert (Hmp : 0 <= mp <= 11) by (subst mp; lia_div).
  assert (Hd : 1 <= doy - (153 * mp + 2) / 5 + 1 <= 31) by (subst mp; lia_div).
  split; [|exact Hd].
  destruct (Z.ltb_spec mp 10); lia.
Qed.

Lemma formatZone_offset (off : Z) :
  -360000 < off < 360000 -> rfc3339.is_offset (time.formatZone off) = true.
Proof.
  intros H. unfold time.formatZone.
  destruct (Z.eqb_spec off 0); [reflexivity|].
  assert (Hz : 0 <= Z.abs (off ÷ 60) < 6000) by lia_div.
  rewrite !appendInt_2 by lia_div.
  destruct (Z.ltb_spec (off ÷ 60) 0).
  all: cbv [String.append rfc3339.is_offset rfc3339.strip rfc3339.numoffset].
  all: cbn [Ascii.eqb Bool.eqb orb].
  all: rewrite !is_digit_digit by lia_div; reflexivity.
Qed.

Lemma append_nil_r (s : string) : s +:+ "" = s.
Proof.
  induction s as [|c s IH]; [reflexivity|].
  change (String c (s +:+ "") = String c s). rewrite IH. reflexivity.
Qed.

Lemma Format_RFC3339_date_time (t : time.Time) :
  0 <= time.Year t <= 9999 -> -360000 < time.offset t < 360000 ->
  rfc3339.is_date_time (time.Format t time.RFC3339) = true.
Proof.
  intros Hy Ho.
  pose proof (civil_range ((time.sec t + time.offset t) / 86400)) as [Hm Hd].
  unfold time.Format, time.RFC3339. cbn [fold_right time.formatChunk].
  rewrite append_nil_r.
  rewrite (appendInt_4 (time.Year t)) by lia.
  rewrite (appendInt_2 (time.Month t)) by (unfold time.Month; lia).
  rewrite (appendInt_2 (time.Day t)) by (unfold time.Day; lia).
  rewrite (appendInt_2 (time.Hour t)) by (unfold time.Hour; lia_div).
  rewrite (appendInt_2 (time.Minute t)) by (unfold time.Minute; lia_div).
  rewrite (appendInt_2 (time.Second t)) by (unfold time.Second; lia_div).
  unfold rfc3339.is_date_time.
  cbv [String.append rfc3339.strip rfc3339.date_time].
  cbn [Ascii.eqb Bool.eqb].
  rewrite !is_digit_digit.
  - apply formatZone_offset, Ho.
  - unfold time.Second; lia_div.
  - unfold time.Second; lia_div.
  - unfold time.Minute; lia_div.
  - unfold time.Minute; lia_div.
  - unfold time.Hour; lia_div.
  - unfold time.Hour; lia_div.
  - unfold time.Day; lia_div.
  - unfold time.Day; lia_div.
  - unfold time.Month; lia_div.
  - unfold time.Month; lia_div.
  - lia_div.
  - lia_div.
  - lia_div.
  - lia_div.
Qed.

End time_facts.

(** *** The subscription name *)

Lemma append_slash_inj (p1 p2 r1 r2 : string) :
  no_slash p1 = true -> no_slash p2 = true ->
  p1 +:+ String "/" r1 = p2 +:+ String "/" r2 -> p1 = p2 /\ r1 = r2.
Proof.
  revert p2. induction p1 as [|c p1 IH]; intros [|d p2] H1 H2 Heq.
  - injection Heq as ->. split; reflexivity.
  - injection Heq as <- _. cbn in H2. discriminate.
  - injection Heq as -> _. cbn in H1. discriminate.
  - cbn in H1, H2. apply andb_prop in H1 as [_ H1].
    apply andb_prop in H2 as [_ H2].
    injection Heq as -> Heq. destruct (IH p2 H1 H2 Heq) as [-> ->].
    split; reflexivity.
Qed.

Lemma subscription_name_inj (p1 s1 p2 s2 : string) :
  no_slash p1 = true -> no_slash p2 = true ->
  "projects/" +:+ p1 +:+ "/subscriptions/" +:+ s1
  = "projects/" +:+ p2 +:+ "/subscriptions/" +:+ s2 ->
  p1 = p2 /\ s1 = s2.
Proof.
  intros H1 H2 Heq. apply (inj (String.app "projects/")) in Heq.
  change ("/subscriptions/" +:+ s1) with (String "/" ("subscriptions/" +:+ s1))
    in Heq.
  change ("/subscriptions/" +:+ s2) with (String "/" ("subscriptions/" +:+ s2))
    in Heq.
  destruct (append_slash_inj _ _ _ _ H1 H2 Heq) as [-> Hs].
  apply (inj (String.app "subscriptions/")) in Hs. auto.
Qed.

(** C7, as stated, fails: two configurations with different (project,
    subscription) pairs whose envelopes carry the same subscription name. *)
Lemma C7_counterexample :
  ~ (forall (msg : pubsub.Message) (cfg1 cfg2 : Config),
       (Project cfg1, Subscription cfg1) <> (Project cfg2, Subscription cfg2) ->
       PubSubMessage.Subscription (transformMessage msg cfg1)
       <> PubSubMessage.Subscription (transformMessage msg cfg2)).
Proof.
  intros H. apply (H msg_m1 cfg_left cfg_right).
  - discriminate.
  - reflexivity.
Qed.

(** C7 (amended): for every configuration the envelope's subscription
    field is [projects/{project}/subscriptions/{subscription}]; and for
    two configurations whose project identifiers contain no [/],
    different (project, subscription) pairs give different subscription
    fields. *)
Theorem C7_subscription_name (msg1 msg2 : pubsub.Message) (cfg1 cfg2 : Config) :
  PubSubMessage.Subscription (transformMessage msg1 cfg1)
  = "projects/" +:+ Project cfg1 +:+ "/subscriptions/" +:+ Subscription cfg1
  /\ (no_slash (Project cfg1) = true -> no_slash (Project cfg2) = true ->
      (Project cfg1, Subscription cfg1) <> (Project cfg2, Subscription cfg2) ->
      PubSubMessage.Subscription (transformMessage msg1 cfg1)
      <> PubSubMessage.Subscription (transformMessage msg2 cfg2)).
Proof.
  split; [reflexivity|]. intros H1 H2 Hne Heq. apply Hne.
  cbn [transformMessage PubSubMessage.Subscription] in Heq.
  destruct (subscription_name_inj _ _ _ _ H1 H2 Heq) as [-> ->]. reflexivity.
Qed.

Lemma C7_witness :
  PubSubMessage.Subscription (transformMessage msg_m1 cfg_ps)
  = "projects/p/subscriptions/s"
  /\ PubSubMessage.Subscription (transformMessage msg_m1 cfg_ps)
     <> PubSubMessage.Subscription (transformMessage msg_m1 cfg_right).
Proof.
  destruct (C7_subscription_name msg_m1 msg_m1 cfg_ps cfg_right) as [H1 H2].
  split; [exact H1|].
  apply H2; [reflexivity | reflexivity | discriminate].
Defined.

(** *** The JSON document of an envelope *)

Section json_facts.

Implicit Types (m : gmap string string) (k : string).




Lemma message_member_attributes (p : PubSubMessage.t) :
  message_member "attributes" p
  = Some (json.of_map (PubSubMessage.Attributes (PubSubMessage.Message p))).
Proof. reflexivity. Qed.

Lemma message_member_messageId (p : PubSubMessage.t) :
  message_member "messageId" p
  = Some (json.JString (PubSubMessage.MessageID (PubSubMessage.Message p))).
Proof. reflexivity. Qed.



Lemma append_assoc (a b c : string) : (a +:+ b) +:+ c = a +:+ (b +:+ c).
Proof.
  induction a as [|x a IH]; [reflexivity|].
  change (String x ((a +:+ b) +:+ c) = String x (a +:+ (b +:+ c))).
  rewrite IH. reflexivity.
Qed.

Lemma appendString_message : json.appendString "message" = quoted "message".
Proof. vm_compute. reflexivity. Qed.

Lemma appendString_attributes :
  json.appendString "attributes" = quoted "attributes".
Proof. vm_compute. reflexivity. Qed.

Lemma appendString_data : json.appendString "data" = quoted "data".
Proof. vm_compute. reflexivity. Qed.

(** The text of an envelope, up to the value of [attributes] and on
    from it. *)
Lemma render_envelope (p : PubSubMessage.t) :
  exists rest : string,
    json.render (json.of_PubSubMessage p)
    = ("{" +:+ quoted "message" +:+ ":{" +:+ quoted "attributes" +:+ ":")
      +:+ json.render
            (json.of_map (PubSubMessage.Attributes (PubSubMessage.Message p)))
      +:+ ("," +:+ quoted "data" +:+ ":") +:+ rest.
Proof.
  eexists. unfold json.of_PubSubMessage, json.reflect.
  cbn [json.encode json.isEmptyValue andb json.render app].
  rewrite appendString_message, appendString_attributes, appendString_data.
  rewrite !append_assoc. cbv [String.append quoted json.dquote].
  reflexivity.
Qed.

End json_facts.

(** C10: the document of every envelope has an [attributes] member, and
    the body text always carries it, right at the start of the [message]
    object; when the raw message's attribute map is nil the member is
    [null] and the body reads ["attributes":null], whereas an empty map
    that is not nil is written [{}]. *)
Theorem C10_attributes_always_present (msg : pubsub.Message) (cfg : Config) :
  let env := transformMessage msg cfg in
  message_member "attributes" env
  = Some (json.of_map (pubsub.Attributes msg))
  /\ (exists rest : string,
        json.Marshal env
        = inl (("{" +:+ quoted "message" +:+ ":{" +:+ quoted "attributes" +:+ ":")
               +:+ json.render (json.of_map (pubsub.Attributes msg))
               +:+ ("," +:+ quoted "data" +:+ ":") +:+ rest))
  /\ (pubsub.Attributes msg = None ->
      message_member "attributes" env = Some json.JNull
      /\ exists rest : string,
           json.Marshal env
           = inl (("{" +:+ quoted "message" +:+ ":{" +:+ quoted "attributes"
                   +:+ ":null," +:+ quoted "data" +:+ ":") +:+ rest))
  /\ json.render (json.of_map (Some ∅)) = "{}".
Proof.
  intros env. pose proof (render_envelope env) as [rest Hrest].
  change (PubSubMessage.Attributes (PubSubMessage.Message env))
    with (pubsub.Attributes msg) in Hrest.
  split; [reflexivity|]. split; [|split].
  - exists rest. unfold json.Marshal. rewrite Hrest. reflexivity.
  - intros Hnil. split.
    + rewrite message_member_attributes. subst env.
      cbn [transformMessage PubSubMessage.Message PubSubMessage.Attributes].
      rewrite Hnil. reflexivity.
    + exists rest. unfold json.Marshal. rewrite Hrest, Hnil. reflexivity.
  - vm_compute. reflexivity.
Qed.

Lemma C10_witness :
  message_member "attributes" (transformMessage msg_m1_later cfg_ps)
  = Some json.JNull.
Proof.
  destruct (C10_attributes_always_present msg_m1_later cfg_ps)
    as (_ & _ & H & _).
  apply H. reflexivity.
Defined.

(** ** The delivery client *)

Section sendPOST_facts.

Variable json_Marshal : PubSubMessage.t -> string + error.
Variable url_Parse : string -> option error.
Variable transport : nat -> http.Request -> http.Response + error.

Local Abbreviation deliver := (sendPOST json_Marshal url_Parse transport).

Lemma in_2xx_test (resp : http.Response) :
  (200 <=? http.StatusCode resp)%Z && (http.StatusCode resp <? 300)%Z = true
  <-> in_2xx resp.
Proof. unfold in_2xx. rewrite andb_true_iff, Z.leb_le, Z.ltb_lt. tauto. Qed.

(** What [sendPOST] returns and does, case by case. *)
Lemma sendPOST_marshal_error url payload w err :
  json_Marshal payload = inr err ->
  deliver url payload w
  = (Some (Errorf_w "failed to marshal JSON payload: " err), w).
Proof. intros H. unfold sendPOST. rewrite H. reflexivity. Qed.

Lemma sendPOST_request_error url payload w body err :
  json_Marshal payload = inl body -> url_Parse url = Some err ->
  deliver url payload w
  = (Some (Errorf_w "failed to create POST request: " err), w).
Proof.
  intros H1 H2. unfold sendPOST, http_NewRequest. rewrite H1, H2.
  reflexivity.
Qed.

Lemma sendPOST_transport_error url payload w body err :
  json_Marshal payload = inl body -> url_Parse url = None ->
  transport (roundtrips w) (post_request url body) = inr err ->
  deliver url payload w
  = (Some (Errorf_w "POST request failed: " err),
     {| trace := trace w ++ [EvPOST (post_request url body)];
        roundtrips := S (roundtrips w) |}).
Proof.
  intros H1 H2 H3. unfold sendPOST, http_NewRequest. rewrite H1, H2.
  unfold mbind, M_bind, client_Do. fold (post_request url body).
  rewrite H3. reflexivity.
Qed.

Lemma sendPOST_status_error url payload w body resp :
  json_Marshal payload = inl body -> url_Parse url = None ->
  transport (roundtrips w) (post_request url body) = inl resp ->
  ~ in_2xx resp ->
  deliver url payload w
  = (Some (Errorf_s "failed to process message. HTTP Status: "
             (http.Status resp)),
     {| trace := trace w ++ [EvPOST (post_request url body)];
        roundtrips := S (roundtrips w) |}).
Proof.
  intros H1 H2 H3 H4. unfold sendPOST, http_NewRequest. rewrite H1, H2.
  unfold mbind, M_bind, client_Do. fold (post_request url body).
  rewrite H3. rewrite <- in_2xx_test in H4.
  destruct (_ && _); [contradiction|]. reflexivity.
Qed.

Lemma sendPOST_success url payload w body resp :
  json_Marshal payload = inl body -> url_Parse url = None ->
  transport (roundtrips w) (post_request url body) = inl resp ->
  in_2xx resp ->
  deliver url payload w
  = (None,
     {| trace := (trace w ++ [EvPOST (post_request url body)])
                 ++ [EvLog "Message processed successfully."];
        roundtrips := S (roundtrips w) |}).
Proof.
  intros H1 H2 H3 H4. unfold sendPOST, http_NewRequest. rewrite H1, H2.
  unfold mbind, M_bind, client_Do. fold (post_request url body).
  rewrite H3. rewrite <- in_2xx_test in H4. rewrite H4. reflexivity.
Qed.

(** C3: [sendPOST] returns nil exactly when a response arrived whose
    status code is at least 200 and below 300.  A response with any other
    status code gives an error that carries the response's status line; a
    failed round trip, a failed serialization and a failed request
    construction each give an error that wraps the underlying one. *)
Theorem C3_sendPOST_success_iff_2xx
    (url : string) (payload : PubSubMessage.t) (w : World) :
  ((deliver url payload w).1 = None
   <-> exists body resp,
         json_Marshal payload = inl body /\ url_Parse url = None
         /\ transport (roundtrips w) (post_request url body) = inl resp
         /\ in_2xx resp)
  /\ (forall body resp,
        json_Marshal payload = inl body -> url_Parse url = None ->
        transport (roundtrips w) (post_request url body) = inl resp ->
        ~ in_2xx resp ->
        (deliver url payload w).1
        = Some (errorString ("failed to process message. HTTP Status: "
                             +:+ http.Status resp)))
  /\ (forall body err,
        json_Marshal payload = inl body -> url_Parse url = None ->
        transport (roundtrips w) (post_request url body) = inr err ->
        (deliver url payload w).1
        = Some (wrapError ("POST request failed: " +:+ Error err) err))
  /\ (forall err,
        json_Marshal payload = inr err ->
        (deliver url payload w).1
        = Some (wrapError ("failed to marshal JSON payload: " +:+ Error err)
                  err))
  /\ (forall body err,
        json_Marshal payload = inl body -> url_Parse url = Some err ->
        (deliver url payload w).1
        = Some (wrapError ("failed to create POST request: " +:+ Error err)
                  err)).
Proof.
  split; [|repeat split].
  - split.
    + intros Hnil.
      destruct (json_Marshal payload) as [body|err] eqn:Hm.
      2:{ rewrite (sendPOST_marshal_error _ _ _ _ Hm) in Hnil. discriminate. }
      destruct (url_Parse url) as [err|] eqn:Hu.
      { rewrite (sendPOST_request_error _ _ _ _ _ Hm Hu) in Hnil.
        discriminate. }
      destruct (transport (roundtrips w) (post_request url body))
        as [resp|err] eqn:Ht.
      2:{ rewrite (sendPOST_transport_error _ _ _ _ _ Hm Hu Ht) in Hnil.
          discriminate. }
      exists body, resp. repeat split; try reflexivity; try assumption.
      all: destruct (Z_le_dec 200 (http.StatusCode resp));
        destruct (Z_lt_dec (http.StatusCode resp) 300); try assumption.
      all: rewrite (sendPOST_status_error _ _ _ _ _ Hm Hu Ht) in Hnil;
        [discriminate | unfold in_2xx; lia].
    + intros (body & resp & Hm & Hu & Ht & Hs).
      rewrite (sendPOST_success _ _ _ _ _ Hm Hu Ht Hs). reflexivity.
  - intros body resp Hm Hu Ht Hs.
    rewrite (sendPOST_status_error _ _ _ _ _ Hm Hu Ht Hs). reflexivity.
  - intros body err Hm Hu Ht.
    rewrite (sendPOST_transport_error _ _ _ _ _ Hm Hu Ht). reflexivity.
  - intros err Hm. rewrite (sendPOST_marshal_error _ _ _ _ Hm). reflexivity.
  - intros body err Hm Hu.
    rewrite (sendPOST_request_error _ _ _ _ _ Hm Hu). reflexivity.
Qed.

End sendPOST_facts.

(** ** The consumption loop *)

Section loop_facts.

Variable json_Marshal : PubSubMessage.t -> string + error.
Variable url_Parse : string -> option error.
Variable transport : nat -> http.Request -> http.Response + error.
Variable cfg : Config.

Local Abbreviation deliver := (sendPOST json_Marshal url_Parse transport).
Local Abbreviation callback := (handle json_Marshal url_Parse transport cfg).
Local Abbreviation run := (consumeMessages json_Marshal url_Parse transport).

(** [sendPOST] only adds events, and never an [Ack] or a [Nack]. *)
Lemma sendPOST_trace url payload w :
  exists evs,
    trace (deliver url payload w).2 = trace w ++ evs
    /\ Forall (fun e => is_settlement e = false) evs.
Proof.
  destruct (json_Marshal payload) as [body|err] eqn:Hm.
  2:{ rewrite (sendPOST_marshal_error _ _ _ _ _ _ _ Hm). exists [].
      split; [symmetry; apply app_nil_r | constructor]. }
  destruct (url_Parse url) as [err|] eqn:Hu.
  { rewrite (sendPOST_request_error _ _ _ _ _ _ _ _ Hm Hu). exists [].
    split; [symmetry; apply app_nil_r | constructor]. }
  destruct (transport (roundtrips w) (post_request url body))
    as [resp|err] eqn:Ht.
  2:{ rewrite (sendPOST_transport_error _ _ _ _ _ _ _ _ Hm Hu Ht).
      eexists. split; [reflexivity|]. repeat constructor. }
  destruct (decide (in_2xx resp)) as [Hs|Hs].
  - rewrite (sendPOST_success _ _ _ _ _ _ _ _ Hm Hu Ht Hs).
    exists [EvPOST (post_request url body);
            EvLog "Message processed successfully."].
    split; [cbn; rewrite <- app_assoc; reflexivity | repeat constructor].
  - rewrite (sendPOST_status_error _ _ _ _ _ _ _ _ Hm Hu Ht Hs).
    eexists. split; [reflexivity|]. repeat constructor.
Qed.

(** The callback: [sendPOST], then the events of its outcome. *)
Lemma handle_run h msg w :
  callback h msg w
  = (tt,
     {| trace := trace (deliver (URL cfg) (transformMessage msg cfg) w).2
                 ++ outcome_events h msg
                      (deliver (URL cfg) (transformMessage msg cfg) w).1;
        roundtrips :=
          roundtrips (deliver (URL cfg) (transformMessage msg cfg) w).2 |}).
Proof.
  unfold handle, mbind, M_bind.
  destruct (deliver (URL cfg) (transformMessage msg cfg) w) as [[e|] w1];
    cbn; [|reflexivity].
  unfold emit. cbn. rewrite <- app_assoc. reflexivity.
Qed.

Lemma settled_app h (a b : list event) :
  settled h (a ++ b) = settled h a ++ settled h b.
Proof. apply List.filter_app. Qed.

Lemma settled_quiet h (evs : list event) :
  Forall (fun e => is_settlement e = false) evs -> settled h evs = [].
Proof.
  induction 1 as [|e evs He _ IH]; [reflexivity|].
  cbn. destruct e; try discriminate; exact IH.
Qed.

Lemma settled_outcome h h' msg err :
  settled h' (outcome_events h msg err)
  = if decide (h' = h) then [verdict h err] else [].
Proof.
  destruct err as [e|]; cbn; destruct (Nat.eqb_spec h' h);
    destruct (decide (h' = h)); try contradiction; reflexivity.
Qed.

(** One callback settles its own delivery, once, and no other. *)
Lemma handle_settled h h' msg w :
  settled h' (trace (callback h msg w).2)
  = settled h' (trace w)
    ++ (if decide (h' = h)
        then [verdict h (deliver (URL cfg) (transformMessage msg cfg) w).1]
        else []).
Proof.
  rewrite handle_run. cbn [snd trace].
  destruct (sendPOST_trace (URL cfg) (transformMessage msg cfg) w)
    as (evs & -> & Hq).
  rewrite !settled_app, (settled_quiet _ _ Hq), app_nil_r.
  rewrite settled_outcome. reflexivity.
Qed.

Lemma Receive_loop_cons f h msg msgs w :
  Receive_loop f h (msg :: msgs) w = Receive_loop f (S h) msgs (f h msg w).2.
Proof.
  cbn [Receive_loop]. unfold mbind, M_bind. destruct (f h msg w). reflexivity.
Qed.

Lemma Receive_loop_app f h msgs1 msgs2 w :
  Receive_loop f h (msgs1 ++ msgs2) w
  = Receive_loop f (h + length msgs1) msgs2 (Receive_loop f h msgs1 w).2.
Proof.
  revert h w. induction msgs1 as [|msg msgs1 IH]; intros h w.
  - cbn. rewrite Nat.add_0_r. reflexivity.
  - cbn [app length]. rewrite !Receive_loop_cons, IH.
    replace (S h + length msgs1) with (h + S (length msgs1)) by lia.
    reflexivity.
Qed.

(** The loop only adds events. *)
Lemma Receive_loop_trace h msgs w :
  exists evs, trace (Receive_loop callback h msgs w).2 = trace w ++ evs.
Proof.
  revert h w. induction msgs as [|msg msgs IH]; intros h w.
  - exists []. cbn. symmetry. apply app_nil_r.
  - rewrite Receive_loop_cons. destruct (IH (S h) (callback h msg w).2)
      as [evs ->].
    rewrite handle_run. cbn [snd trace].
    destruct (sendPOST_trace (URL cfg) (transformMessage msg cfg) w)
      as (evs' & -> & _).
    eexists. rewrite <- !app_assoc. reflexivity.
Qed.

(** Deliveries before the loop's first handle are not touched. *)
Lemma Receive_loop_settled_below h0 msgs w h :
  h < h0 ->
  settled h (trace (Receive_loop callback h0 msgs w).2) = settled h (trace w).
Proof.
  revert h0 w. induction msgs as [|msg msgs IH]; intros h0 w Hlt.
  - reflexivity.
  - rewrite Receive_loop_cons, IH by lia. rewrite handle_settled.
    destruct (decide (h = h0)); [lia|]. apply app_nil_r.
Qed.

(** Delivery [h0 + k] of the loop is settled once, by the verdict on
    what [sendPOST] returned in its callback. *)
Lemma Receive_loop_settled h0 msgs w k :
  settled (h0 + k) (trace (Receive_loop callback h0 msgs w).2)
  = settled (h0 + k) (trace w)
    ++ match msgs !! k with
       | Some msg =>
           [verdict (h0 + k)
              (deliver (URL cfg) (transformMessage msg cfg)
                 (Receive_loop callback h0 (take k msgs) w).2).1]
       | None => []
       end.
Proof.
  revert h0 w k. induction msgs as [|msg msgs IH]; intros h0 w k.
  - rewrite lookup_nil. cbn. symmetry. apply app_nil_r.
  - rewrite Receive_loop_cons. destruct k as [|k].
    + rewrite Nat.add_0_r. rewrite Receive_loop_settled_below by lia.
      rewrite handle_settled. destruct (decide (h0 = h0)); [|contradiction].
      reflexivity.
    + replace (h0 + S k) with (S h0 + k) by lia. rewrite IH.
      rewrite handle_settled. destruct (decide (S h0 + k = h0)); [lia|].
      rewrite app_nil_r. cbn [lookup list_lookup take].
      rewrite Receive_loop_cons. reflexivity.
Qed.

(** [consumeMessages] is the loop, followed by a look at the error. *)
Lemma consumeMessages_run sub w :
  run sub cfg w
  = (loop_result (termination sub),
     (Receive_loop callback 0 (deliveries sub) w).2).
Proof.
  unfold consumeMessages, Receive, mbind, M_bind, mret, M_ret.
  destruct (Receive_loop callback 0 (deliveries sub) w) as [[] w'].
  destruct (termination sub) as [e|]; [|reflexivity].
  destruct e; reflexivity.
Qed.

End loop_facts.

(** Filtering a merge of lists of which only one has elements that pass
    the filter gives that list, filtered. *)
Lemma filter_interleaving (P : event -> bool) (h : nat)
    (ls : list (list event)) (tr : list event) :
  interleaving ls tr ->
  (forall i l, i <> h -> ls !! i = Some l -> List.filter P l = []) ->
  List.filter P tr = List.filter P (default [] (ls !! h)).
Proof.
  induction 1 as [ls Hnil | ls i x l tr Hi _ IH]; intros Hother.
  - destruct (ls !! h) as [l|] eqn:Hl; [|reflexivity].
    rewrite Forall_lookup in Hnil. rewrite (Hnil h l Hl). reflexivity.
  - assert (Hlt : i < length ls) by (eapply lookup_lt_Some; eassumption).
    destruct (decide (i = h)) as [->|Hne].
    + rewrite Hi. cbn [default List.filter].
      rewrite IH.
      * rewrite list_lookup_insert_eq by assumption. reflexivity.
      * intros j l' Hj Hl'. rewrite list_lookup_insert_ne in Hl' by congruence.
        eapply Hother; eassumption.
    + pose proof (Hother i (x :: l) Hne Hi) as Hx. cbn [List.filter] in Hx.
      destruct (P x) eqn:HP; [discriminate|].
      cbn [List.filter]. rewrite HP, IH.
      * rewrite list_lookup_insert_ne by assumption. reflexivity.
      * intros j l' Hj Hl'. destruct (decide (i = j)) as [->|Hij].
        -- rewrite list_lookup_insert_eq in Hl' by assumption.
           injection Hl' as <-. exact Hx.
        -- rewrite list_lookup_insert_ne in Hl' by assumption.
           eapply Hother; eassumption.
Qed.

Section overlap_facts.

Variable json_Marshal : PubSubMessage.t -> string + error.
Variable url_Parse : string -> option error.
Variable transport : nat -> http.Request -> http.Response + error.
Variable cfg : Config.

Lemma thread_events_settled n h h' msg :
  settled h' (thread_events json_Marshal url_Parse transport cfg n h msg)
  = if decide (h' = h)
    then [verdict h (thread_result json_Marshal url_Parse transport cfg n msg)]
    else [].
Proof. unfold thread_events. rewrite handle_settled. reflexivity. Qed.

(** However the callbacks of a run overlap, each delivery is settled
    once, by the verdict of its own callback. *)
Lemma overlapping_run_settled sub ns tr h msg :
  deliveries sub !! h = Some msg ->
  interleaving (threads json_Marshal url_Parse transport sub cfg ns) tr ->
  settled h tr
  = [verdict h
       (thread_result json_Marshal url_Parse transport cfg (ns h) msg)].
Proof.
  intros Hh Hint. unfold settled.
  rewrite (filter_interleaving (settles h) h _ _ Hint).
  - unfold threads. rewrite list_lookup_imap, Hh.
    change (settled h (thread_events json_Marshal url_Parse transport cfg
                         (ns h) h msg)
            = [verdict h (thread_result json_Marshal url_Parse transport cfg
                            (ns h) msg)]).
    rewrite thread_events_settled.
    destruct (decide (h = h)); [reflexivity | contradiction].
  - intros i l Hne Hl. unfold threads in Hl.
    rewrite list_lookup_imap in Hl.
    destruct (deliveries sub !! i) as [msg'|]; [|discriminate].
    injection Hl as <-.
    change (settled h (thread_events json_Marshal url_Parse transport cfg
                         (ns i) i msg') = []).
    rewrite thread_events_settled.
    destruct (decide (h = i)); [congruence | reflexivity].
Qed.

End overlap_facts.

Section loop_claims.

Variable json_Marshal : PubSubMessage.t -> string + error.
Variable url_Parse : string -> option error.
Variable transport : nat -> http.Request -> http.Response + error.
Variable cfg : Config.

Local Abbreviation deliver := (sendPOST json_Marshal url_Parse transport).
Local Abbreviation callback := (handle json_Marshal url_Parse transport cfg).
Local Abbreviation run := (consumeMessages json_Marshal url_Parse transport).
Local Abbreviation before := (world_before json_Marshal url_Parse transport).
Local Abbreviation result :=
  (delivery_result json_Marshal url_Parse transport).

(** After the callback of delivery [h]: the world before it, changed by
    that callback. *)
Lemma world_before_S sub h msg :
  deliveries sub !! h = Some msg ->
  before sub cfg (S h) = (callback h msg (before sub cfg h)).2.
Proof.
  intros Hh. unfold world_before.
  rewrite (take_S_r _ _ _ Hh), Receive_loop_app.
  rewrite length_take_le by (apply Nat.lt_le_incl, (lookup_lt_Some _ _ _ Hh)).
  rewrite Receive_loop_cons. reflexivity.
Qed.

(** The run goes on from any of its points to its end. *)
Lemma world_before_prefix sub h :
  trace (before sub cfg h) `prefix_of` trace (run sub cfg world0).2.
Proof.
  rewrite consumeMessages_run. cbn [snd]. unfold world_before.
  rewrite <- (take_drop h (deliveries sub)) at 2.
  rewrite Receive_loop_app.
  destruct (Receive_loop_trace json_Marshal url_Parse transport cfg
              (0 + length (take h (deliveries sub)))
              (drop h (deliveries sub))
              (Receive_loop callback 0 (take h (deliveries sub)) world0).2)
    as [evs ->].
  eexists. reflexivity.
Qed.

Lemma run_settled sub h :
  settled h (trace (run sub cfg world0).2)
  = match deliveries sub !! h with
    | Some msg => [verdict h (result sub cfg h msg)]
    | None => []
    end.
Proof.
  rewrite consumeMessages_run. cbn [snd].
  apply (Receive_loop_settled json_Marshal url_Parse transport cfg
           0 (deliveries sub) world0 h).
Qed.

(** C1: in a run of [consumeMessages], every delivered message is
    settled by exactly one event, an [Ack] or a [Nack] and never both;
    it is the [Ack] when [sendPOST] returned nil in the message's
    callback and the [Nack] when it returned an error.  This is the
    callback's doing: run in any world, it adds exactly one settlement
    of its own delivery, chosen by what [sendPOST] returned, and none of
    any other delivery; so the same holds of every trace that merges the
    events of overlapping callbacks. *)
Theorem C1_exactly_one_ack_or_nack
    (sub : Receive_run) (h : nat) (msg : pubsub.Message) :
  deliveries sub !! h = Some msg ->
  let tr := trace (run sub cfg world0).2 in
  length (settled h tr) = 1
  /\ (result sub cfg h msg = None -> settled h tr = [EvAck h])
  /\ (forall e, result sub cfg h msg = Some e -> settled h tr = [EvNack h])
  /\ (forall (w : World) (h' : nat),
        settled h' (trace (callback h msg w).2)
        = settled h' (trace w)
          ++ (if decide (h' = h)
              then [verdict h
                      (deliver (URL cfg) (transformMessage msg cfg) w).1]
              else []))
  /\ (forall (ns : nat -> nat) (tr' : list event),
        interleaving (threads json_Marshal url_Parse transport sub cfg ns) tr' ->
        settled h tr'
        = [verdict h
             (thread_result json_Marshal url_Parse transport cfg (ns h) msg)]).
Proof.
  intros Hh tr. subst tr. rewrite run_settled, Hh.
  split; [reflexivity|]. split; [|split; [|split]].
  - intros ->. reflexivity.
  - intros e ->. reflexivity.
  - intros w h'. apply handle_settled.
  - intros ns tr' Hint. eapply overlapping_run_settled; eassumption.
Qed.

(** C4: when [Receive] ends with the cancellation signal (or with nil),
    [consumeMessages] returns nil, and if no message was delivered before
    it the run leaves no event at all (no [Ack], no [Nack]); when
    [Receive] ends with any other error, [consumeMessages] returns an
    error that wraps it. *)
Theorem C4_cancellation_is_clean_stop (sub : Receive_run) (w : World) :
  (termination sub = Some context_Canceled \/ termination sub = None ->
   (run sub cfg w).1 = None)
  /\ (termination sub = Some context_Canceled -> deliveries sub = [] ->
      run sub cfg w = (None, w))
  /\ (forall e, termination sub = Some e -> e <> context_Canceled ->
      (run sub cfg w).1
      = Some (wrapError ("error receiving messages: " +:+ Error e) e)
      /\ Unwrap (wrapError ("error receiving messages: " +:+ Error e) e)
         = Some e).
Proof.
  rewrite consumeMessages_run. cbn [fst]. split; [|split].
  - intros [-> | ->]; reflexivity.
  - intros -> ->. reflexivity.
  - intros e -> Hne. split; [|reflexivity].
    destruct e; [contradiction | reflexivity | reflexivity].
Qed.

(** C5: when [sendPOST] fails in the callback of a delivered message,
    the callback logs a line with the message's identifier and the
    error's text and then issues the message's [Nack], which is the one
    event that settles it; what [consumeMessages] returns depends on the
    end of [Receive] alone, nil for a nil end or the cancellation signal;
    and every later delivery is still settled by its own callback. *)
Theorem C5_delivery_failure_is_recovered
    (sub : Receive_run) (h : nat) (msg : pubsub.Message) (e : error) :
  deliveries sub !! h = Some msg ->
  result sub cfg h msg = Some e ->
  let tr := trace (run sub cfg world0).2 in
  settled h tr = [EvNack h]
  /\ trace (before sub cfg (S h))
     = trace (deliver (URL cfg) (transformMessage msg cfg)
                (before sub cfg h)).2
       ++ [EvLog ("Error processing message ID " +:+ pubsub.ID msg +:+ ": "
                  +:+ Error e);
           EvNack h]
  /\ trace (before sub cfg (S h)) `prefix_of` tr
  /\ (run sub cfg world0).1 = loop_result (termination sub)
  /\ (termination sub = None \/ termination sub = Some context_Canceled ->
      (run sub cfg world0).1 = None)
  /\ (forall h' msg', h < h' -> deliveries sub !! h' = Some msg' ->
      settled h' tr = [verdict h' (result sub cfg h' msg')]).
Proof.
  intros Hh He tr. subst tr. repeat split.
  - rewrite run_settled, Hh, He. reflexivity.
  - rewrite (world_before_S _ _ _ Hh), handle_run. cbn [snd trace].
    unfold delivery_result in He. rewrite He. reflexivity.
  - apply world_before_prefix.
  - rewrite consumeMessages_run. reflexivity.
  - rewrite consumeMessages_run. cbn [fst]. intros [-> | ->]; reflexivity.
  - intros h' msg' _ Hh'. rewrite run_settled, Hh'. reflexivity.
Qed.

End loop_claims.

Lemma threads_run2 :
  threads json.Marshal parse_ok endpoint run2 cfg_ps id
  = [[EvPOST (post_request "http://x/y" body_m1);
      EvLog "Message processed successfully."; EvAck 0];
     [EvPOST (post_request "http://x/y" body_m1); EvLog line_500; EvNack 1]].
Proof. vm_compute. reflexivity. Qed.

Ltac take_step i :=
  eapply (interleaving_step _ i); [reflexivity|]; cbn [insert list_insert].

Example overlap2_interleaving :
  interleaving (threads json.Marshal parse_ok endpoint run2 cfg_ps id) overlap2.
Proof.
  rewrite threads_run2. unfold overlap2.
  take_step 0. take_step 1. take_step 1. take_step 1. take_step 0.
  take_step 0. apply interleaving_done. repeat constructor.
Qed.

Lemma C1_witness :
  settled 0 (trace (consumeMessages json.Marshal parse_ok endpoint
                      run3 cfg_ps world0).2) = [EvAck 0]
  /\ settled 1 (trace (consumeMessages json.Marshal parse_ok endpoint
                         run3 cfg_ps world0).2) = [EvNack 1]
  /\ settled 1 overlap2 = [EvNack 1].
Proof.
  split; [|split].
  - destruct (C1_exactly_one_ack_or_nack json.Marshal parse_ok endpoint
                cfg_ps run3 0 msg_m1 eq_refl) as (_ & H & _).
    apply H. vm_compute. reflexivity.
  - destruct (C1_exactly_one_ack_or_nack json.Marshal parse_ok endpoint
                cfg_ps run3 1 msg_m1_later eq_refl) as (_ & _ & H & _).
    eapply H. vm_compute. reflexivity.
  - destruct (C1_exactly_one_ack_or_nack json.Marshal parse_ok endpoint
                cfg_ps run2 1 msg_m1 eq_refl) as (_ & _ & _ & _ & H).
    rewrite (H id overlap2 overlap2_interleaving). vm_compute. reflexivity.
Defined.

Lemma C3_witness :
  (sendPOST json.Marshal parse_ok endpoint "http://x/y"
     (transformMessage msg_m1 cfg_ps) world0).1 = None
  /\ (sendPOST json.Marshal parse_ok endpoint "http://x/y"
        (transformMessage msg_m1 cfg_ps)
        {| trace := []; roundtrips := 1 |}).1
     = Some (errorString
               "failed to process message. HTTP Status: 500 Internal Server Error")
  /\ (sendPOST marshal_fails parse_ok endpoint "http://x/y"
        (transformMessage msg_m1 cfg_ps) world0).1
     = Some (wrapError
               "failed to marshal JSON payload: json: unsupported value"
               (errorString "json: unsupported value")).
Proof.
  split; [|split].
  - apply (C3_sendPOST_success_iff_2xx json.Marshal parse_ok endpoint).
    exists body_m1, {| http.Status := "200 OK"; http.StatusCode := 200 |}.
    repeat split; try (vm_compute; reflexivity); unfold in_2xx; cbn; lia.
  - destruct (C3_sendPOST_success_iff_2xx json.Marshal parse_ok endpoint
                "http://x/y" (transformMessage msg_m1 cfg_ps)
                {| trace := []; roundtrips := 1 |}) as (_ & H & _).
    apply (H body_m1
             {| http.Status := "500 Internal Server Error";
                http.StatusCode := 500 |});
      try (vm_compute; reflexivity).
    unfold in_2xx; cbn; lia.
  - destruct (C3_sendPOST_success_iff_2xx marshal_fails parse_ok endpoint
                "http://x/y" (transformMessage msg_m1 cfg_ps) world0)
      as (_ & _ & _ & H & _).
    apply (H (errorString "json: unsupported value")). reflexivity.
Defined.

Lemma C4_witness :
  consumeMessages json.Marshal parse_ok endpoint run_cancelled cfg_ps world0
  = (None, world0)
  /\ (consumeMessages json.Marshal parse_ok endpoint run3 cfg_ps world0).1
     = None
  /\ (consumeMessages json.Marshal parse_ok endpoint run_broken cfg_ps
        world0).1
     = Some (wrapError
               "error receiving messages: rpc error: code = Unavailable"
               (errorString "rpc error: code = Unavailable")).
Proof.
  split; [|split].
  - apply (C4_cancellation_is_clean_stop json.Marshal parse_ok endpoint
             cfg_ps run_cancelled world0); reflexivity.
  - apply (C4_cancellation_is_clean_stop json.Marshal parse_ok endpoint
             cfg_ps run3 world0). left. reflexivity.
  - destruct (C4_cancellation_is_clean_stop json.Marshal parse_ok endpoint
                cfg_ps run_broken world0) as (_ & _ & H).
    apply (H (errorString "rpc error: code = Unavailable"));
      [reflexivity | discriminate].
Defined.

Lemma C5_witness :
  settled 1 (trace (consumeMessages json.Marshal parse_ok endpoint
                      run3 cfg_ps world0).2) = [EvNack 1]
  /\ (consumeMessages json.Marshal parse_ok endpoint run3 cfg_ps world0).1
     = None
  /\ settled 2 (trace (consumeMessages json.Marshal parse_ok endpoint
                         run3 cfg_ps world0).2) = [EvNack 2].
Proof.
  assert (Hres : delivery_result json.Marshal parse_ok endpoint run3 cfg_ps
                   1 msg_m1_later
                 = Some (errorString
                           "failed to process message. HTTP Status: 500 Internal Server Error")).
  { vm_compute. reflexivity. }
  destruct (C5_delivery_failure_is_recovered json.Marshal parse_ok endpoint
              cfg_ps run3 1 msg_m1_later _ eq_refl Hres)
    as (H1 & _ & _ & _ & H5 & H6).
  split; [exact H1|]. split.
  - apply H5. right. reflexivity.
  - rewrite (H6 2 msg_m1 (Nat.lt_succ_diag_r 1) eq_refl).
    vm_compute. reflexivity.
Defined.

(** C8: for the raw message m1 with payload "hello", attributes
    {k: v}, publish time 2024-01-01T00:00:00Z and no ordering key, and
    the configuration with project p, subscription s and URL http://x/y,
    the serialized envelope is the expected body text (so it
    deserializes to the expected document, which has no [orderingKey]),
    and that text is the body of the POST request [sendPOST] makes. *)
Theorem C8_end_to_end_body
    (url_Parse : string -> option error)
    (transport : nat -> http.Request -> http.Response + error) :
  url_Parse (URL cfg_ps) = None ->
  let env := transformMessage msg_m1 cfg_ps in
  json.Marshal env = inl body_m1
  /\ json.of_PubSubMessage env = doc_m1
  /\ json.render doc_m1 = body_m1
  /\ message_member "orderingKey" env = None
  /\ exists evs,
       trace (sendPOST json.Marshal url_Parse transport (URL cfg_ps) env
                world0).2
       = EvPOST {| http.Method := "POST"; http.URL := "http://x/y";
                   http.Header := [("Content-Type", "application/json")];
                   http.Body := body_m1 |} :: evs.
Proof.
  intros Hu env.
  assert (Hm : json.Marshal env = inl body_m1) by (vm_compute; reflexivity).
  split; [exact Hm|]. split; [vm_compute; reflexivity|].
  split; [vm_compute; reflexivity|]. split; [vm_compute; reflexivity|].
  change {| http.Method := "POST"; http.URL := "http://x/y";
            http.Header := [("Content-Type", "application/json")];
            http.Body := body_m1 |}
    with (post_request (URL cfg_ps) body_m1).
  destruct (transport (roundtrips world0) (post_request (URL cfg_ps) body_m1))
    as [resp|err] eqn:Ht.
  - destruct (decide (in_2xx resp)) as [Hs|Hs].
    + rewrite (sendPOST_success _ _ _ _ _ _ _ _ Hm Hu Ht Hs).
      eexists. reflexivity.
    + rewrite (sendPOST_status_error _ _ _ _ _ _ _ _ Hm Hu Ht Hs).
      eexists. reflexivity.
  - rewrite (sendPOST_transport_error _ _ _ _ _ _ _ _ Hm Hu Ht).
    eexists. reflexivity.
Qed.

Lemma C8_witness :
  json.Marshal (transformMessage msg_m1 cfg_ps) = inl body_m1
  /\ message_member "orderingKey" (transformMessage msg_m1 cfg_ps) = None.
Proof.
  destruct (C8_end_to_end_body parse_ok endpoint eq_refl)
    as (H1 & _ & _ & H4 & _).
  split; [exact H1 | exact H4].
Defined.

(** * Further properties of the program *)

(** ** [sendPOST] *)

Section sendPOST_more.

Variable json_Marshal : PubSubMessage.t -> string + error.
Variable url_Parse : string -> option error.
Variable transport : nat -> http.Request -> http.Response + error.

Local Abbreviation deliver := (sendPOST json_Marshal url_Parse transport).

(** The five ways [sendPOST] can go, with what each leaves behind. *)
Lemma sendPOST_cases url payload w :
  (exists err, json_Marshal payload = inr err
     /\ deliver url payload w
        = (Some (Errorf_w "failed to marshal JSON payload: " err), w))
  \/ (exists body err, json_Marshal payload = inl body
        /\ url_Parse url = Some err
        /\ deliver url payload w
           = (Some (Errorf_w "failed to create POST request: " err), w))
  \/ (exists body, json_Marshal payload = inl body /\ url_Parse url = None
        /\ ((exists err,
               transport (roundtrips w) (post_request url body) = inr err
               /\ deliver url payload w
                  = (Some (Errorf_w "POST request failed: " err),
                     {| trace := trace w ++ [EvPOST (post_request url body)];
                        roundtrips := S (roundtrips w) |}))
            \/ (exists resp,
                  transport (roundtrips w) (post_request url body) = inl resp
                  /\ ~ in_2xx resp
                  /\ deliver url payload w
                     = (Some (Errorf_s
                                "failed to process message. HTTP Status: "
                                (http.Status resp)),
                        {| trace := trace w
                                    ++ [EvPOST (post_request url body)];
                           roundtrips := S (roundtrips w) |}))
            \/ (exists resp,
                  transport (roundtrips w) (post_request url body) = inl resp
                  /\ in_2xx resp
                  /\ deliver url payload w
                     = (None,
                        {| trace := (trace w
                                     ++ [EvPOST (post_request url body)])
                                    ++ [EvLog "Message processed successfully."];
                           roundtrips := S (roundtrips w) |})))).
Proof.
  destruct (json_Marshal payload) as [body|err] eqn:Hm.
  2:{ left. exists err. split; [reflexivity|].
      apply (sendPOST_marshal_error _ _ _ _ _ _ _ Hm). }
  right. destruct (url_Parse url) as [err|] eqn:Hu.
  { left. exists body, err. repeat split.
    apply (sendPOST_request_error _ _ _ _ _ _ _ _ Hm Hu). }
  right. exists body. split; [reflexivity|]. split; [reflexivity|].
  destruct (transport (roundtrips w) (post_request url body))
    as [resp|err] eqn:Ht.
  2:{ left. exists err. split; [reflexivity|].
      apply (sendPOST_transport_error _ _ _ _ _ _ _ _ Hm Hu Ht). }
  right. destruct (decide (in_2xx resp)) as [Hs|Hs].
  - right. exists resp. repeat split; try apply Hs.
    apply (sendPOST_success _ _ _ _ _ _ _ _ Hm Hu Ht Hs).
  - left. exists resp. repeat split; try assumption.
    apply (sendPOST_status_error _ _ _ _ _ _ _ _ Hm Hu Ht Hs).
Qed.

(** X1: one call of [sendPOST] makes at most one request and never
    tries again; the count of round trips grows by the requests made;
    and when serialization or the construction of the request fails,
    nothing is sent and the world is left as it was. *)
Theorem sendPOST_at_most_one_request url payload w :
  exists evs,
    trace (deliver url payload w).2 = trace w ++ evs
    /\ length (List.filter is_POST evs) <= 1
    /\ roundtrips (deliver url payload w).2
       = roundtrips w + length (List.filter is_POST evs)
    /\ ((exists err, json_Marshal payload = inr err)
        \/ (exists err, url_Parse url = Some err) ->
        (deliver url payload w).2 = w /\ evs = []).
Proof.
  destruct (sendPOST_cases url payload w)
    as [(err & Hm & ->)
       | [(body & err & Hm & Hu & ->)
         | (body & Hm & Hu &
            [(err & Ht & ->) | [(resp & Ht & Hs & ->) | (resp & Ht & Hs & ->)]])]];
    cbn [snd trace roundtrips].
  - exists []. rewrite app_nil_r. cbn. repeat split; lia.
  - exists []. rewrite app_nil_r. cbn. repeat split; lia.
  - exists [EvPOST (post_request url body)]. cbn.
    split; [reflexivity|]. split; [lia|]. split; [lia|].
    intros [[e He] | [e He]]; congruence.
  - exists [EvPOST (post_request url body)]. cbn.
    split; [reflexivity|]. split; [lia|]. split; [lia|].
    intros [[e He] | [e He]]; congruence.
  - exists [EvPOST (post_request url body);
            EvLog "Message processed successfully."]. cbn.
    split; [symmetry; apply (app_assoc _ [_] [_])|].
    split; [lia|]. split; [lia|].
    intros [[e He] | [e He]]; congruence.
Qed.

(** X2: every request [sendPOST] sends is a POST to the URL it was
    given, with the serialized payload as its body and the one header
    [Content-Type: application/json]. *)
Theorem sendPOST_request_shape url payload w req :
  In (EvPOST req)
    (drop (length (trace w))
       (trace (sendPOST json_Marshal url_Parse transport url payload w).2)) ->
  exists body,
    json_Marshal payload = inl body
    /\ req = {| http.Method := "POST"; http.URL := url;
                http.Header := [("Content-Type", "application/json")];
                http.Body := body |}.
Proof.
  destruct (sendPOST_cases url payload w)
    as [(err & Hm & ->)
       | [(body & err & Hm & Hu & ->)
         | (body & Hm & Hu &
            [(err & Ht & ->) | [(resp & Ht & Hs & ->) | (resp & Ht & Hs & ->)]])]];
    cbn [snd trace].
  1,2: rewrite drop_all; cbn [In]; intros [].
  1,2: rewrite drop_app_length; cbn [In]; intros [Heq|[]];
    injection Heq as <-; exists body; split; [assumption | reflexivity].
  rewrite <- app_assoc, drop_app_length. cbn [In].
  intros [Heq|[Heq|[]]]; [|discriminate]. injection Heq as <-.
  exists body; split; [assumption | reflexivity].
Qed.

(** X3: [sendPOST] logs its success line exactly when it returns nil,
    after the request; when it returns an error it logs nothing (the
    caller does). *)
Theorem sendPOST_logs_success_only url payload w :
  List.filter is_log
    (drop (length (trace w)) (trace (deliver url payload w).2))
  = match (deliver url payload w).1 with
    | None => [EvLog "Message processed successfully."]
    | Some _ => []
    end.
Proof.
  destruct (sendPOST_cases url payload w)
    as [(err & Hm & ->)
       | [(body & err & Hm & Hu & ->)
         | (body & Hm & Hu &
            [(err & Ht & ->) | [(resp & Ht & Hs & ->) | (resp & Ht & Hs & ->)]])]];
    cbn [fst snd trace].
  1,2: rewrite drop_all; reflexivity.
  1,2: rewrite drop_app_length; reflexivity.
  rewrite <- app_assoc, drop_app_length. reflexivity.
Qed.

End sendPOST_more.

(** ** The callback and the loop *)

Section loop_more.

Variable json_Marshal : PubSubMessage.t -> string + error.
Variable url_Parse : string -> option error.
Variable transport : nat -> http.Request -> http.Response + error.
Variable cfg : Config.

Local Abbreviation deliver := (sendPOST json_Marshal url_Parse transport).
Local Abbreviation callback := (handle json_Marshal url_Parse transport cfg).
Local Abbreviation run := (consumeMessages json_Marshal url_Parse transport).
Local Abbreviation before := (world_before json_Marshal url_Parse transport).
Local Abbreviation events_of :=
  (thread_events json_Marshal url_Parse transport cfg).
Local Abbreviation result_of :=
  (thread_result json_Marshal url_Parse transport cfg).

(** [sendPOST] reads nothing of the world but the count of round trips. *)
Lemma sendPOST_frame url payload w :
  deliver url payload w
  = ((deliver url payload {| trace := []; roundtrips := roundtrips w |}).1,
     {| trace := trace w
                 ++ trace (deliver url payload
                             {| trace := []; roundtrips := roundtrips w |}).2;
        roundtrips :=
          roundtrips (deliver url payload
                        {| trace := []; roundtrips := roundtrips w |}).2 |}).
Proof.
  set (w0 := {| trace := []; roundtrips := roundtrips w |}).
  destruct w as [tr n]. cbn [roundtrips trace] in *.
  destruct (json_Marshal payload) as [body|err] eqn:Hm.
  2:{ rewrite !(sendPOST_marshal_error _ _ _ _ _ _ _ Hm). cbn.
      rewrite app_nil_r. reflexivity. }
  destruct (url_Parse url) as [err|] eqn:Hu.
  { rewrite !(sendPOST_request_error _ _ _ _ _ _ _ _ Hm Hu). cbn.
    rewrite app_nil_r. reflexivity. }
  destruct (transport n (post_request url body)) as [resp|err] eqn:Ht.
  2:{ rewrite (sendPOST_transport_error _ _ _ _ _ {| trace := tr; roundtrips := n |}
                 _ _ Hm Hu Ht).
      rewrite (sendPOST_transport_error _ _ _ _ _ w0 _ _ Hm Hu Ht).
      reflexivity. }
  destruct (decide (in_2xx resp)) as [Hs|Hs].
  - rewrite (sendPOST_success _ _ _ _ _ {| trace := tr; roundtrips := n |}
               _ _ Hm Hu Ht Hs).
    rewrite (sendPOST_success _ _ _ _ _ w0 _ _ Hm Hu Ht Hs).
    cbn. rewrite <- app_assoc. reflexivity.
  - rewrite (sendPOST_status_error _ _ _ _ _ {| trace := tr; roundtrips := n |}
               _ _ Hm Hu Ht Hs).
    rewrite (sendPOST_status_error _ _ _ _ _ w0 _ _ Hm Hu Ht Hs).
    reflexivity.
Qed.

(** The callback in any world: the events it has on its own, added. *)
Lemma handle_frame h msg w :
  callback h msg w
  = (tt,
     {| trace := trace w ++ events_of (roundtrips w) h msg;
        roundtrips :=
          roundtrips (callback h msg
                        {| trace := []; roundtrips := roundtrips w |}).2 |}).
Proof.
  unfold thread_events. rewrite !handle_run.
  rewrite (sendPOST_frame (URL cfg) (transformMessage msg cfg) w).
  cbn [fst snd trace roundtrips app]. rewrite app_assoc. reflexivity.
Qed.

(** What [sendPOST] returning nil means. *)
Lemma sendPOST_nil_inv url payload w :
  (deliver url payload w).1 = None ->
  exists body resp,
    json_Marshal payload = inl body /\ url_Parse url = None
    /\ transport (roundtrips w) (post_request url body) = inl resp
    /\ in_2xx resp.
Proof.
  destruct (sendPOST_cases json_Marshal url_Parse transport url payload w)
    as [(err & Hm & ->)
       | [(body & err & Hm & Hu & ->)
         | (body & Hm & Hu &
            [(err & Ht & ->) | [(resp & Ht & Hs & ->) | (resp & Ht & Hs & ->)]])]];
    cbn [fst]; try discriminate.
  intros _. exists body, resp. auto.
Qed.

(** X4: a message is acknowledged only after the endpoint answered its
    request with a status from 200 to 299: if the run's trace has the
    [Ack] of delivery [h], then [h] is a delivery of the run, its
    envelope was serialized, the URL was accepted, and the response to
    its request had such a status. *)
Theorem ack_only_after_2xx (sub : Receive_run) (h : nat) :
  In (EvAck h) (trace (run sub cfg world0).2) ->
  exists msg body resp,
    deliveries sub !! h = Some msg
    /\ json_Marshal (transformMessage msg cfg) = inl body
    /\ url_Parse (URL cfg) = None
    /\ transport (roundtrips (before sub cfg h))
         (post_request (URL cfg) body) = inl resp
    /\ in_2xx resp.
Proof.
  intros Hin.
  assert (Hs : In (EvAck h) (settled h (trace (run sub cfg world0).2))).
  { apply List.filter_In. split; [exact Hin|]. cbn. apply Nat.eqb_refl. }
  rewrite run_settled in Hs.
  destruct (deliveries sub !! h) as [msg|] eqn:Hh; [|destruct Hs].
  destruct Hs as [Hv|[]]. unfold verdict, delivery_result in Hv.
  destruct (deliver (URL cfg) (transformMessage msg cfg) (before sub cfg h)).1
    eqn:Hr; [discriminate|].
  destruct (sendPOST_nil_inv _ _ _ Hr) as (body & resp & Hm & Hu & Ht & H2).
  exists msg, body, resp. auto.
Qed.

(** X5: the events of one callback, in order: at most one request,
    then exactly one log line, then the settlement of the message, which
    is the callback's last event. *)
Theorem callback_events_in_order (h : nat) (msg : pubsub.Message) (w : World) :
  exists (posts : list event) (line : string),
    trace (callback h msg w).2
    = trace w ++ posts
      ++ [EvLog line;
          verdict h (deliver (URL cfg) (transformMessage msg cfg) w).1]
    /\ (posts = []
        \/ exists body,
             json_Marshal (transformMessage msg cfg) = inl body
             /\ posts = [EvPOST (post_request (URL cfg) body)]).
Proof.
  rewrite handle_run. cbn [snd trace].
  destruct (sendPOST_cases json_Marshal url_Parse transport (URL cfg)
              (transformMessage msg cfg) w)
    as [(err & Hm & ->)
       | [(body & err & Hm & Hu & ->)
         | (body & Hm & Hu &
            [(err & Ht & ->) | [(resp & Ht & Hs & ->) | (resp & Ht & Hs & ->)]])]];
    cbn [fst snd trace outcome_events verdict].
  - exists []; eexists. split; [reflexivity | left; reflexivity].
  - exists []; eexists. split; [reflexivity | left; reflexivity].
  - exists [EvPOST (post_request (URL cfg) body)]; eexists.
    split; [rewrite <- app_assoc; reflexivity | right; eauto].
  - exists [EvPOST (post_request (URL cfg) body)]; eexists.
    split; [rewrite <- app_assoc; reflexivity | right; eauto].
  - exists [EvPOST (post_request (URL cfg) body)]; eexists.
    split; [rewrite <- !app_assoc; reflexivity | right; eauto].
Qed.

End loop_more.

(** Lists merge into their concatenation. *)
Lemma interleaving_skip {A} (ls : list (list A)) (tr : list A) :
  interleaving ls tr -> interleaving ([] :: ls) tr.
Proof.
  induction 1 as [ls Hnil | ls i x l tr Hi _ IH].
  - apply interleaving_done. constructor; [reflexivity | assumption].
  - apply (interleaving_step _ (S i) x l); assumption.
Qed.

Lemma interleaving_concat {A} (ls : list (list A)) :
  interleaving ls (concat ls).
Proof.
  induction ls as [|l ls IH].
  - apply interleaving_done. constructor.
  - cbn [concat]. induction l as [|x l IHl].
    + apply interleaving_skip, IH.
    + apply (interleaving_step _ 0 x l); [reflexivity | exact IHl].
Qed.

Section sequential.

Variable json_Marshal : PubSubMessage.t -> string + error.
Variable url_Parse : string -> option error.
Variable transport : nat -> http.Request -> http.Response + error.
Variable cfg : Config.

Local Abbreviation callback := (handle json_Marshal url_Parse transport cfg).
Local Abbreviation run := (consumeMessages json_Marshal url_Parse transport).
Local Abbreviation before := (world_before json_Marshal url_Parse transport).
Local Abbreviation events_of :=
  (thread_events json_Marshal url_Parse transport cfg).

Lemma Receive_loop_concat h0 msgs w :
  trace (Receive_loop callback h0 msgs w).2
  = trace w
    ++ concat
         (imap (fun k msg =>
                  events_of
                    (roundtrips (Receive_loop callback h0 (take k msgs) w).2)
                    (h0 + k) msg)
            msgs).
Proof.
  revert h0 w. induction msgs as [|msg msgs IH]; intros h0 w.
  - cbn. symmetry. apply app_nil_r.
  - rewrite Receive_loop_cons, IH. cbn [imap concat take].
    rewrite (handle_frame json_Marshal url_Parse transport cfg h0 msg w)
      at 1.
    cbn [snd trace]. rewrite Nat.add_0_r, <- app_assoc.
    do 3 f_equal. apply imap_ext. intros k m _. unfold compose.
    cbn [take]. rewrite Receive_loop_cons.
    replace (h0 + S k) with (S h0 + k) by lia. reflexivity.
Qed.

(** X6: a run whose callbacks come one after the other leaves the
    events of the callbacks, delivery by delivery, each callback's events
    together and in order; the request of a delivery is numbered by the
    requests made before its callback started.  Such a trace is one of
    the merges of these callbacks' events. *)
Theorem sequential_run_is_concatenation (sub : Receive_run) :
  let ns := fun h => roundtrips (before sub cfg h) in
  trace (run sub cfg world0).2
  = concat (threads json_Marshal url_Parse transport sub cfg ns)
  /\ interleaving (threads json_Marshal url_Parse transport sub cfg ns)
       (trace (run sub cfg world0).2).
Proof.
  intros ns.
  assert (Heq : trace (run sub cfg world0).2
                = concat (threads json_Marshal url_Parse transport sub cfg ns)).
  { rewrite consumeMessages_run. cbn [snd].
    rewrite Receive_loop_concat. reflexivity. }
  split; [exact Heq|]. rewrite Heq. apply interleaving_concat.
Qed.

End sequential.

Section counting.

Variable json_Marshal : PubSubMessage.t -> string + error.
Variable url_Parse : string -> option error.
Variable transport : nat -> http.Request -> http.Response + error.
Variable cfg : Config.

Local Abbreviation deliver := (sendPOST json_Marshal url_Parse transport).
Local Abbreviation callback := (handle json_Marshal url_Parse transport cfg).
Local Abbreviation run := (consumeMessages json_Marshal url_Parse transport).
Local Abbreviation result :=
  (delivery_result json_Marshal url_Parse transport).

Lemma requests_app (a b : list event) :
  requests (a ++ b) = requests a + requests b.
Proof. unfold requests. rewrite List.filter_app, length_app. reflexivity. Qed.

(** The requests of one callback: none or one. *)
Lemma handle_requests h msg w :
  exists k,
    k <= 1
    /\ requests (trace (callback h msg w).2) = requests (trace w) + k
    /\ roundtrips (callback h msg w).2 = roundtrips w + k
    /\ ((exists body, json_Marshal (transformMessage msg cfg) = inl body) ->
        url_Parse (URL cfg) = None -> k = 1)
    /\ (is_Some (url_Parse (URL cfg)) -> k = 0).
Proof.
  rewrite handle_run. cbn [snd trace roundtrips].
  destruct (sendPOST_cases json_Marshal url_Parse transport (URL cfg)
              (transformMessage msg cfg) w)
    as [(err & Hm & ->)
       | [(body & err & Hm & Hu & ->)
         | (body & Hm & Hu &
            [(err & Ht & ->) | [(resp & Ht & Hs & ->) | (resp & Ht & Hs & ->)]])]];
    cbn [fst snd trace roundtrips]; rewrite !requests_app.
  - exists 0. destruct w; cbn. repeat split; try lia.
    intros [body Hb]; congruence.
  - exists 0. destruct w; cbn. repeat split; try lia.
    intros _ ?; congruence.
  - exists 1. destruct w; cbn. repeat split; try lia.
    rewrite Hu. intros [? ?]; discriminate.
  - exists 1. destruct w; cbn. repeat split; try lia.
    rewrite Hu. intros [? ?]; discriminate.
  - exists 1. destruct w; cbn. repeat split; try lia.
    rewrite Hu. intros [? ?]; discriminate.
Qed.

Lemma Receive_loop_requests h0 msgs w :
  let w' := (Receive_loop callback h0 msgs w).2 in
  requests (trace w') <= requests (trace w) + length msgs
  /\ roundtrips w' + requests (trace w) = roundtrips w + requests (trace w')
  /\ (Forall (fun msg => exists body,
                json_Marshal (transformMessage msg cfg) = inl body) msgs ->
      url_Parse (URL cfg) = None ->
      requests (trace w') = requests (trace w) + length msgs)
  /\ (is_Some (url_Parse (URL cfg)) -> requests (trace w') = requests (trace w)).
Proof.
  revert h0 w. induction msgs as [|msg msgs IH]; intros h0 w; cbn zeta.
  - cbn. repeat split; lia.
  - rewrite Receive_loop_cons.
    destruct (handle_requests h0 msg w) as (k & Hk & Hr & Hn & Hone & Hzero).
    destruct (IH (S h0) (callback h0 msg w).2) as (IH1 & IH2 & IH3 & IH4).
    cbn [length]. repeat split.
    + lia.
    + lia.
    + intros Hall Hu. apply Forall_cons in Hall as [Hmsg Hall].
      rewrite (IH3 Hall Hu), Hr, (Hone Hmsg Hu). lia.
    + intros Hu. rewrite (IH4 Hu), Hr, (Hzero Hu). lia.
Qed.

(** X7: a run makes at most one request per delivery, and the
    transport's count of round trips is the number of requests in the
    trace; when every envelope of the run serializes and the URL is
    accepted, it makes exactly one request per delivery. *)
Theorem requests_per_delivery (sub : Receive_run) :
  let w' := (run sub cfg world0).2 in
  requests (trace w') <= length (deliveries sub)
  /\ roundtrips w' = requests (trace w')
  /\ (Forall (fun msg => exists body,
                json_Marshal (transformMessage msg cfg) = inl body)
        (deliveries sub) ->
      url_Parse (URL cfg) = None ->
      requests (trace w') = length (deliveries sub)).
Proof.
  cbn zeta. rewrite consumeMessages_run. cbn [snd].
  destruct (Receive_loop_requests 0 (deliveries sub) world0)
    as (H1 & H2 & H3 & _).
  cbn in H1, H2, H3. repeat split; try lia.
  intros Hall Hu. apply (H3 Hall Hu).
Qed.

(** X8: a URL that [http.NewRequest] rejects is found out message by
    message: the run sends no request at all, every delivery is settled
    by its [Nack], and for a delivery whose envelope serializes the
    logged line names the message and the request-construction error. *)
Theorem rejected_url_nacks_every_message
    (sub : Receive_run) (err : error) (h : nat) (msg : pubsub.Message) :
  url_Parse (URL cfg) = Some err ->
  deliveries sub !! h = Some msg ->
  let tr := trace (run sub cfg world0).2 in
  requests tr = 0
  /\ settled h tr = [EvNack h]
  /\ ((exists body, json_Marshal (transformMessage msg cfg) = inl body) ->
      In (EvLog ("Error processing message ID " +:+ pubsub.ID msg
                 +:+ ": failed to create POST request: " +:+ Error err))
        tr).
Proof.
  intros Hu Hh tr. subst tr. split; [|split].
  - rewrite consumeMessages_run. cbn [snd].
    destruct (Receive_loop_requests 0 (deliveries sub) world0)
      as (_ & _ & _ & H4).
    rewrite H4 by (rewrite Hu; eexists; reflexivity). reflexivity.
  - rewrite run_settled, Hh. unfold delivery_result.
    destruct (sendPOST_cases json_Marshal url_Parse transport (URL cfg)
                (transformMessage msg cfg)
                (world_before json_Marshal url_Parse transport sub cfg h))
      as [(e & Hm & ->)
         | [(body & e & Hm & Hu' & ->) | (body & Hm & Hu' & _)]];
      [reflexivity | reflexivity | congruence].
  - intros [body Hm].
    pose proof (world_before_prefix json_Marshal url_Parse transport cfg
                  sub (S h)) as [evs Hpre].
    rewrite Hpre. apply in_or_app. left.
    rewrite (world_before_S _ _ _ _ _ _ _ Hh), handle_run. cbn [snd trace].
    rewrite (sendPOST_request_error _ _ _ _ _ _ _ _ Hm Hu).
    cbn [fst snd outcome_events]. apply in_or_app. right. left. reflexivity.
Qed.

End counting.

(** ** The body text *)

Lemma plain_encode (i : N) : (i < 64)%N -> plain (base64.encode i) = true.
Proof.
  intros Hi. destruct i as [|p]; [reflexivity|].
  do 6 (destruct p as [p|p|]; try reflexivity; try lia).
Qed.

Lemma all_plain_EncodeToString (src : list byte) :
  all_plain (base64.EncodeToString src) = true.
Proof.
  assert (H : forall src : list byte,
    all_plain (base64.EncodeToString src) = true
    /\ (forall a, all_plain (base64.EncodeToString (a :: src)) = true)
    /\ (forall a b, all_plain (base64.EncodeToString (a :: b :: src)) = true)).
  { clear src. induction src as [|c src (IH0 & IH1 & IH2)].
    - repeat split; intros; cbn [base64.EncodeToString all_plain];
        rewrite ?plain_encode by apply base64_facts.sextet_lt; reflexivity.
    - split; [exact (IH1 c)|]. split; [exact (fun a => IH2 a c)|].
      intros a b. cbn [base64.EncodeToString all_plain].
      rewrite !plain_encode by apply base64_facts.sextet_lt.
      exact IH0. }
  apply H.
Qed.

(** A text of plain characters is its own JSON string literal. *)
Lemma appendString_plain (s : string) :
  all_plain s = true -> json.appendString s = quoted s.
Proof.
  intros H. unfold json.appendString, quoted. f_equal.
  induction s as [|c s IH]; [reflexivity|].
  cbn [all_plain] in H. apply andb_prop in H as [Hc Hs].
  unfold plain in Hc. apply andb_prop in Hc as [Hlt Hsafe].
  cbn [json.appendString_go]. rewrite Hlt, Hsafe, (IH Hs). reflexivity.
Qed.

Lemma appendString_messageId :
  json.appendString "messageId" = quoted "messageId".
Proof. vm_compute. reflexivity. Qed.

(** The text of an envelope up to the value of [messageId]. *)
Lemma render_envelope_data (p : PubSubMessage.t) :
  exists rest : string,
    json.render (json.of_PubSubMessage p)
    = ("{" +:+ quoted "message" +:+ ":{" +:+ quoted "attributes" +:+ ":")
      +:+ json.render
            (json.of_map (PubSubMessage.Attributes (PubSubMessage.Message p)))
      +:+ ("," +:+ quoted "data" +:+ ":")
      +:+ json.appendString (PubSubMessage.Data (PubSubMessage.Message p))
      +:+ ("," +:+ quoted "messageId" +:+ ":") +:+ rest.
Proof.
  eexists. unfold json.of_PubSubMessage, json.reflect.
  cbn [json.encode json.isEmptyValue andb json.render app].
  rewrite appendString_message, appendString_attributes, appendString_data,
    appendString_messageId.
  rewrite !append_assoc. cbv [String.append quoted json.dquote].
  reflexivity.
Qed.

(** X9: the [data] of an envelope has four characters for every three
    payload bytes, rounded up, all of them characters that JSON needs no
    escape for; so the body text carries the base64 text as it is,
    between quotes, after the attributes. *)
Theorem data_is_verbatim_in_body (msg : pubsub.Message) (cfg : Config) :
  let data := base64.EncodeToString (pubsub.Data msg) in
  String.length data = 4 * ((length (pubsub.Data msg) + 2) / 3)
  /\ all_plain data = true
  /\ exists rest : string,
       json.Marshal (transformMessage msg cfg)
       = inl (("{" +:+ quoted "message" +:+ ":{" +:+ quoted "attributes"
               +:+ ":")
              +:+ json.render (json.of_map (pubsub.Attributes msg))
              +:+ ("," +:+ quoted "data" +:+ ":") +:+ quoted data
              +:+ ("," +:+ quoted "messageId" +:+ ":") +:+ rest).
Proof.
  intros data. split; [apply EncodeToString_length|].
  split; [apply all_plain_EncodeToString|].
  destruct (render_envelope_data (transformMessage msg cfg)) as [rest Hrest].
  exists rest. unfold json.Marshal. rewrite Hrest.
  cbn [transformMessage PubSubMessage.Message PubSubMessage.Attributes
       PubSubMessage.Data].
  rewrite (appendString_plain _ (all_plain_EncodeToString (pubsub.Data msg))).
  reflexivity.
Qed.

(** The order of the members written for a map. *)
Section sorted_members.

Local Instance entry_le_trans :
  Transitive (fun a b : string * string => String.le a.1 b.1).
Proof. intros a b c Hab Hbc. etrans; eassumption. Qed.

Local Instance entry_le_total :
  Total (fun a b : string * string => String.le a.1 b.1).
Proof. intros a b. apply (total String.le). Qed.

Lemma keys_sorted (l : list (string * string)) :
  StronglySorted (fun a b : string * string => String.le a.1 b.1) l ->
  StronglySorted String.le (l.*1).
Proof.
  induction 1 as [|a l _ IH Hall]; cbn; constructor; [exact IH|].
  rewrite Forall_fmap. exact Hall.
Qed.

(** X10: the object written for an attribute map lists every key of the
    map once, in increasing byte order, whatever the order the map
    yields its entries in. *)
Theorem attributes_in_key_order (m : gmap string string) :
  exists members : list (string * json.value),
    json.of_map (Some m) = json.JObject members
    /\ StronglySorted String.le (members.*1)
    /\ NoDup (members.*1)
    /\ length members = size m
    /\ forall k, k ∈ members.*1 <-> is_Some (m !! k).
Proof.
  set (l := merge_sort (fun a b : string * string => String.le a.1 b.1)
              (map_to_list m)).
  assert (Hperm : l ≡ₚ map_to_list m) by apply merge_sort_Permutation.
  assert (Hfst : ((fun kv : string * string => (kv.1, json.JString kv.2)) <$> l).*1
                 = l.*1).
  { rewrite <- list_fmap_compose. apply list_fmap_ext. intros ? [? ?] _.
    reflexivity. }
  exists ((fun kv : string * string => (kv.1, json.JString kv.2)) <$> l).
  split; [reflexivity|]. rewrite Hfst.
  split; [|split; [|split]].
  - apply keys_sorted. subst l. apply (StronglySorted_merge_sort _).
  - rewrite Hperm. apply NoDup_fst_map_to_list.
  - rewrite length_fmap, Hperm. apply length_map_to_list.
  - intros k. rewrite Hperm, list_elem_of_fmap. split.
    + intros ([k' v] & -> & Hin). apply elem_of_map_to_list in Hin.
      eexists. exact Hin.
    + intros [v Hv]. exists (k, v). split; [reflexivity|].
      apply elem_of_map_to_list. exact Hv.
Qed.

End sorted_members.

(** ** The publish time, read back *)

Section instant_facts.

Local Open Scope Z_scope.

(** The civil date of a day denotes that day. *)
Lemma days_from_civil_civil (days : Z) :
  instant.days_from_civil (time.civil days).1.1 (time.civil days).1.2
    (time.civil days).2 = days.
Proof.
  unfold time.civil, instant.days_from_civil. cbn [fst snd].
  set (z := days + 719468).
  set (era := z / 146097). set (doe := z mod 146097).
  assert (Hz : z = era * 146097 + doe) by (subst era doe; lia_div).
  assert (Hdoe : 0 <= doe < 146097)
    by (subst doe; apply Z.mod_pos_bound; lia).
  clearbody era doe.
  set (yoe := (doe - doe / 1460 + doe / 36524 - doe / 146096) / 365).
  set (doy := doe - (365 * yoe + yoe / 4 - yoe / 100)).
  assert (Hy : 0 <= yoe <= 399 /\ 0 <= doy <= 365)
    by (subst doy yoe; lia_div).
  assert (Hdoy : doe = yoe * 365 + yoe / 4 - yoe / 100 + doy)
    by (subst doy; lia).
  clearbody doy. clearbody yoe.
  set (mp := (5 * doy + 2) / 153).
  assert (Hmp : 0 <= mp <= 11) by (subst mp; lia_div).
  assert (Hd : (153 * mp + 2) / 5 + (doy - (153 * mp + 2) / 5 + 1) - 1 = doy)
    by lia.
  clearbody mp.
  destruct (Z.ltb_spec mp 10).
  - destruct (Z.leb_spec (mp + 3) 2); [lia|].
    destruct (Z.ltb_spec 2 (mp + 3)); [|lia].
    replace (mp + 3 - 3) with mp by lia.
    replace ((yoe + era * 400) / 400) with era by lia_div.
    replace (yoe + era * 400 - era * 400) with yoe by lia.
    lia.
  - destruct (Z.leb_spec (mp - 9) 2); [|lia].
    destruct (Z.ltb_spec 2 (mp - 9)); [lia|].
    replace (mp - 9 + 9) with mp by lia.
    replace (yoe + era * 400 + 1 - 1) with (yoe + era * 400) by lia.
    replace ((yoe + era * 400) / 400) with era by lia_div.
    replace (yoe + era * 400 - era * 400) with yoe by lia.
    lia.
Qed.

End instant_facts.

Section read_back.

Local Open Scope Z_scope.

Lemma digit_value_digit (d : Z) :
  0 <= d < 10 -> instant.digit_value (digit d) = d.
Proof.
  intros H.
  assert (Hd : d = 0 \/ d = 1 \/ d = 2 \/ d = 3 \/ d = 4 \/ d = 5 \/ d = 6
               \/ d = 7 \/ d = 8 \/ d = 9) by lia.
  repeat (destruct Hd as [->|Hd]; [reflexivity|]). subst d. reflexivity.
Qed.

Lemma two_digits (x : Z) :
  0 <= x < 100 -> instant.two (digit (x / 10)) (digit (x mod 10)) = x.
Proof.
  intros H. unfold instant.two. rewrite !digit_value_digit by lia_div.
  lia_div.
Qed.

Lemma four_digits (x : Z) :
  0 <= x < 10000 ->
  100 * instant.two (digit (x / 1000)) (digit (x / 100 mod 10))
  + instant.two (digit (x / 10 mod 10)) (digit (x mod 10)) = x.
Proof.
  intros H. unfold instant.two. rewrite !digit_value_digit by lia_div.
  lia_div.
Qed.

(** The text [Format] writes for a year of four digits. *)
Lemma Format_RFC3339_expand (t : time.Time) :
  0 <= time.Year t <= 9999 ->
  time.Format t time.RFC3339
  = String (digit (time.Year t / 1000))
      (String (digit (time.Year t / 100 mod 10))
      (String (digit (time.Year t / 10 mod 10))
      (String (digit (time.Year t mod 10))
      (String "-"
      (String (digit (time.Month t / 10))
      (String (digit (time.Month t mod 10))
      (String "-"
      (String (digit (time.Day t / 10))
      (String (digit (time.Day t mod 10))
      (String "T"
      (String (digit (time.Hour t / 10))
      (String (digit (time.Hour t mod 10))
      (String ":"
      (String (digit (time.Minute t / 10))
      (String (digit (time.Minute t mod 10))
      (String ":"
      (String (digit (time.Second t / 10))
      (String (digit (time.Second t mod 10))
         (time.formatZone (time.offset t)))))))))))))))))))).
Proof.
  intros Hy.
  pose proof (civil_range ((time.sec t + time.offset t) / 86400)) as [Hm Hd].
  unfold time.Format, time.RFC3339. cbn [fold_right time.formatChunk].
  rewrite append_nil_r.
  rewrite (appendInt_4 (time.Year t)) by lia.
  rewrite (appendInt_2 (time.Month t)) by (unfold time.Month; lia).
  rewrite (appendInt_2 (time.Day t)) by (unfold time.Day; lia).
  rewrite (appendInt_2 (time.Hour t)) by (unfold time.Hour; lia_div).
  rewrite (appendInt_2 (time.Minute t)) by (unfold time.Minute; lia_div).
  rewrite (appendInt_2 (time.Second t)) by (unfold time.Second; lia_div).
  reflexivity.
Qed.

(** The offset the zone field of a whole-minute offset denotes. *)
Lemma offset_of_formatZone (off : Z) :
  -360000 < off < 360000 -> Z.rem off 60 = 0 ->
  instant.offset_of (time.formatZone off) = off.
Proof.
  intros Hr Hm. unfold time.formatZone.
  destruct (Z.eqb_spec off 0) as [->|Hne]; [reflexivity|].
  assert (Hz : 0 <= Z.abs (off ÷ 60) < 6000) by lia_div.
  rewrite !appendInt_2 by lia_div.
  destruct (Z.ltb_spec (off ÷ 60) 0).
  all: cbv [String.append instant.offset_of]; cbn [Ascii.eqb Bool.eqb].
  all: rewrite !two_digits by lia_div; lia_div.
Qed.

(** X12: the [publishTime] text denotes the publish instant, to the
    second: for a timestamp whose year has four digits and whose zone
    offset is a whole number of minutes (below a hundred hours; zero for
    UTC), reading the text [Format] writes as an RFC 3339 date-time gives
    back the timestamp's Unix second. *)
Theorem publishTime_reads_back (msg : pubsub.Message) (cfg : Config) :
  let t := pubsub.PublishTime msg in
  0 <= time.Year t <= 9999 ->
  -360000 < time.offset t < 360000 ->
  Z.rem (time.offset t) 60 = 0 ->
  instant.of_date_time
    (PubSubMessage.PublishTime (PubSubMessage.Message (transformMessage msg cfg)))
  = Some (time.sec t).
Proof.
  intros t Hy Ho Hm.
  cbn [transformMessage PubSubMessage.Message PubSubMessage.PublishTime].
  fold t. unfold instant.of_date_time.
  rewrite (Format_RFC3339_date_time t Hy Ho).
  rewrite (Format_RFC3339_expand t Hy). cbv iota beta.
  rewrite (offset_of_formatZone _ Ho Hm).
  pose proof (civil_range ((time.sec t + time.offset t) / 86400)) as [Hmo Hd].
  rewrite (four_digits (time.Year t)) by lia.
  rewrite (two_digits (time.Month t)) by (unfold time.Month; lia).
  rewrite (two_digits (time.Day t)) by (unfold time.Day; lia).
  rewrite (two_digits (time.Hour t)) by (unfold time.Hour; lia_div).
  rewrite (two_digits (time.Minute t)) by (unfold time.Minute; lia_div).
  rewrite (two_digits (time.Second t)) by (unfold time.Second; lia_div).
  f_equal.
  pose proof (days_from_civil_civil ((time.sec t + time.offset t) / 86400))
    as Hrt.
  unfold time.Year, time.Month, time.Day. rewrite Hrt.
  unfold time.Hour, time.Minute, time.Second. lia_div.
Qed.

End read_back.

(** ** The publish time as text *)

Section publish_time.

Local Open Scope Z_scope.

Lemma leap_year_of_last_day (doe era : Z) :
  0 <= doe < 146097 ->
  let yoe := (doe - doe / 1460 + doe / 36524 - doe / 146096) / 365 in
  doe - (365 * yoe + yoe / 4 - yoe / 100) = 365 ->
  calendar.leap (yoe + era * 400 + 1) = true.
Proof.
  intros Hdoe yoe Hlast.
  assert (H : ((yoe + 1) mod 4 = 0 /\ (yoe + 1) mod 100 <> 0)
              \/ (yoe + 1) mod 400 = 0) by (subst yoe; lia_div).
  assert (H4 : (yoe + era * 400 + 1) mod 4 = (yoe + 1) mod 4) by lia_div.
  assert (H100 : (yoe + era * 400 + 1) mod 100 = (yoe + 1) mod 100) by lia_div.
  assert (H400 : (yoe + era * 400 + 1) mod 400 = (yoe + 1) mod 400) by lia_div.
  unfold calendar.leap. rewrite H4, H100, H400. clearbody yoe.
  destruct (Z.eqb_spec ((yoe + 1) mod 400) 0); [apply orb_true_r|].
  destruct (Z.eqb_spec ((yoe + 1) mod 4) 0);
    destruct (Z.eqb_spec ((yoe + 1) mod 100) 0); try reflexivity; lia.
Qed.

Lemma month_day_bounds (doy y : Z) :
  0 <= doy <= 365 ->
  (doy = 365 -> calendar.leap (y + 1) = true) ->
  let mp := (5 * doy + 2) / 153 in
  let m := if mp <? 10 then mp + 3 else mp - 9 in
  1 <= doy - (153 * mp + 2) / 5 + 1
  <= calendar.days_in_month (if m <=? 2 then y + 1 else y) m.
Proof.
  intros Hdoy Hleap mp m.
  assert (Hmp : 0 <= mp <= 11) by (subst mp; lia_div).
  assert (Hlo : 153 * mp <= 5 * doy + 2 < 153 * mp + 153) by (subst mp; lia_div).
  clearbody mp. subst m.
  unfold calendar.days_in_month.
  destruct (Z.ltb_spec mp 10) as [Hlt|Hge].
  - destruct (Z.leb_spec (mp + 3) 2) as [?|_]; [lia|].
    destruct (Z.eqb_spec (mp + 3) 2) as [?|_]; [lia|].
    assert (Hc : mp = 0 \/ mp = 1 \/ mp = 2 \/ mp = 3 \/ mp = 4 \/ mp = 5
                 \/ mp = 6 \/ mp = 7 \/ mp = 8 \/ mp = 9) by lia.
    repeat (destruct Hc as [->|Hc]; [vm_compute Z.eqb; cbn [orb]; lia_div|]).
    subst mp. vm_compute Z.eqb; cbn [orb]; lia_div.
  - destruct (Z.leb_spec (mp - 9) 2) as [_|?]; [|lia].
    assert (Hc : mp = 10 \/ mp = 11) by lia.
    destruct Hc as [->| ->].
    + vm_compute Z.eqb; cbn [orb]. lia_div.
    + change (11 - 9 =? 2) with true. cbv iota.
      destruct (Z.eq_dec doy 365) as [->|Hne].
      * rewrite Hleap by reflexivity. vm_compute. split; congruence.
      * destruct (calendar.leap (y + 1)); lia_div.
Qed.

Lemma civil_day_in_month (days : Z) :
  1 <= (time.civil days).2
  <= calendar.days_in_month (time.civil days).1.1 (time.civil days).1.2.
Proof.
  unfold time.civil. cbn [fst snd].
  set (z := days + 719468).
  set (era := z / 146097). set (doe := z mod 146097).
  assert (Hdoe : 0 <= doe < 146097)
    by (subst doe; apply Z.mod_pos_bound; lia).
  clearbody era doe. clear z.
  pose proof (leap_year_of_last_day doe era Hdoe) as Hleap. cbn zeta in Hleap.
  set (yoe := (doe - doe / 1460 + doe / 36524 - doe / 146096) / 365) in *.
  set (doy := doe - (365 * yoe + yoe / 4 - yoe / 100)) in *.
  assert (Hdoy : 0 <= doy <= 365) by (subst doy yoe; lia_div).
  clearbody doy. clearbody yoe.
  apply (month_day_bounds doy (yoe + era * 400) Hdoy Hleap).
Qed.

Lemma civil_month (days : Z) : 1 <= (time.civil days).1.2 <= 12.
Proof.
  unfold time.civil. cbn [fst snd].
  match goal with |- context [if ?mp <? 10 then _ else _] =>
    destruct (Z.ltb_spec mp 10) end; lia_div.
Qed.

Lemma time_of_day_range (t : time.Time) :
  0 <= time.Hour t <= 23 /\ 0 <= time.Minute t <= 59
  /\ 0 <= time.Second t <= 59.
Proof. unfold time.Hour, time.Minute, time.Second. lia_div. Qed.

Lemma valid_offset_formatZone (off : Z) :
  -86400 < off < 86400 -> calendar.valid_offset (time.formatZone off) = true.
Proof.
  intros Hr. unfold time.formatZone.
  destruct (Z.eqb_spec off 0) as [->|Hne]; [reflexivity|].
  rewrite !appendInt_2 by lia_div.
  destruct (Z.ltb_spec (off ÷ 60) 0).
  all: cbv [String.append calendar.valid_offset].
  all: rewrite !two_digits by lia_div.
  all: apply andb_true_intro; split; apply Z.leb_le; lia_div.
Qed.

(** The text [Format] writes names a day of the calendar and a second of
    the clock. *)
Lemma Format_valid (t : time.Time) :
  0 <= time.Year t <= 9999 -> -86400 < time.offset t < 86400 ->
  calendar.valid_date_time (time.Format t time.RFC3339) = true.
Proof.
  intros Hy Ho. unfold calendar.valid_date_time.
  rewrite (Format_RFC3339_date_time t Hy) by lia. cbn [andb].
  rewrite (Format_RFC3339_expand t Hy). cbv iota beta zeta.
  rewrite (valid_offset_formatZone _ Ho).
  pose proof (civil_month ((time.sec t + time.offset t) / 86400)) as Hmo.
  pose proof (civil_day_in_month ((time.sec t + time.offset t) / 86400)) as Hd.
  pose proof (civil_range ((time.sec t + time.offset t) / 86400)) as [_ Hd31].
  pose proof (time_of_day_range t) as (Hh & Hn & Hs).
  fold (time.Year t) in Hd. fold (time.Month t) in Hmo, Hd.
  fold (time.Day t) in Hd, Hd31.
  rewrite (four_digits (time.Year t)) by lia.
  rewrite (two_digits (time.Month t)) by lia.
  rewrite (two_digits (time.Day t)) by lia.
  rewrite (two_digits (time.Hour t)) by lia.
  rewrite (two_digits (time.Minute t)) by lia.
  rewrite (two_digits (time.Second t)) by lia.
  repeat (apply andb_true_intro; split); try reflexivity; apply Z.leb_le; lia.
Qed.

(** The date and clock [Format] writes are those of the instant shifted
    by the zone offset. *)
Lemma Format_local_second (t : time.Time) :
  0 <= time.Year t <= 9999 ->
  calendar.local_second (time.Format t time.RFC3339)
  = Some (time.sec t + time.offset t).
Proof.
  intros Hy. rewrite (Format_RFC3339_expand t Hy).
  unfold calendar.local_second.
  pose proof (civil_range ((time.sec t + time.offset t) / 86400)) as [Hmo Hd].
  pose proof (time_of_day_range t) as (Hh & Hn & Hs).
  rewrite (four_digits (time.Year t)) by lia.
  rewrite (two_digits (time.Month t)) by (unfold time.Month; lia).
  rewrite (two_digits (time.Day t)) by (unfold time.Day; lia).
  rewrite (two_digits (time.Hour t)) by lia.
  rewrite (two_digits (time.Minute t)) by lia.
  rewrite (two_digits (time.Second t)) by lia.
  f_equal.
  pose proof (days_from_civil_civil ((time.sec t + time.offset t) / 86400))
    as Hrt.
  unfold time.Year, time.Month, time.Day. rewrite Hrt.
  unfold time.Hour, time.Minute, time.Second. lia_div.
Qed.

(** Reading the text [Format] writes gives back the second. *)
Lemma Format_reads_back (t : time.Time) :
  plain_time t ->
  instant.of_date_time (time.Format t time.RFC3339) = Some (time.sec t).
Proof.
  intros (Hy & Ho & Hm). unfold instant.of_date_time.
  rewrite (Format_RFC3339_date_time t Hy) by lia.
  pose proof (Format_local_second t Hy) as Hl.
  rewrite (Format_RFC3339_expand t Hy) in *. cbv iota beta.
  unfold calendar.local_second in Hl. cbv zeta in *. injection Hl as Hl.
  rewrite (offset_of_formatZone (time.offset t)) by (assumption || lia).
  f_equal. lia.
Qed.

(** The text [Format] writes determines the second and the zone offset. *)
Lemma Format_inj (t1 t2 : time.Time) :
  plain_time t1 -> plain_time t2 ->
  time.Format t1 time.RFC3339 = time.Format t2 time.RFC3339 ->
  time.sec t1 = time.sec t2 /\ time.offset t1 = time.offset t2.
Proof.
  intros H1 H2 Heq.
  pose proof (Format_reads_back t1 H1) as R1.
  pose proof (Format_reads_back t2 H2) as R2.
  rewrite Heq, R2 in R1. injection R1 as R1. split; [congruence|].
  destruct H1 as (Hy1 & Ho1 & Hm1). destruct H2 as (Hy2 & Ho2 & Hm2).
  rewrite (Format_RFC3339_expand t1 Hy1), (Format_RFC3339_expand t2 Hy2) in Heq.
  assert (Hz : time.formatZone (time.offset t1)
               = time.formatZone (time.offset t2)) by congruence.
  apply (f_equal instant.offset_of) in Hz.
  rewrite !offset_of_formatZone in Hz by (assumption || lia). exact Hz.
Qed.



(** C9: the envelope's [publishTime] has whole-second precision.  The
    nanoseconds of the publish timestamp do not reach it: two raw
    messages whose publish timestamps agree on the second (and the zone
    offset) and differ only below the second get the same [publishTime]
    string, which is the one of the timestamp with the fraction set to
    zero.  The second itself is kept: for a timestamp with a four-digit
    year and a zone offset of whole minutes within a day, the instant
    the text names is the timestamp's second, so two such messages get
    the same string only if their timestamps agree on the second (and
    the zone offset). *)
Theorem C9_publishTime_whole_seconds
    (msg1 msg2 : pubsub.Message) (cfg1 cfg2 : Config) :
  let t1 := pubsub.PublishTime msg1 in
  let t2 := pubsub.PublishTime msg2 in
  let text1 :=
    PubSubMessage.PublishTime (PubSubMessage.Message (transformMessage msg1 cfg1)) in
  let text2 :=
    PubSubMessage.PublishTime (PubSubMessage.Message (transformMessage msg2 cfg2)) in
  (time.sec t1 = time.sec t2 -> time.offset t1 = time.offset t2 ->
   text1 = text2)
  /\ text1
     = time.Format
         {| time.sec := time.sec t1; time.nsec := 0;
            time.offset := time.offset t1 |}
         time.RFC3339
  /\ (plain_time t1 -> instant.of_date_time text1 = Some (time.sec t1))
  /\ (plain_time t1 -> plain_time t2 -> text1 = text2 ->
      time.sec t1 = time.sec t2 /\ time.offset t1 = time.offset t2).
Proof.
  intros t1 t2 text1 text2. subst text1 text2.
  cbn [transformMessage PubSubMessage.PublishTime PubSubMessage.Message].
  fold t1 t2. split; [|split; [|split]].
  - intros Hs Ho. apply Format_whole_seconds; assumption.
  - apply Format_whole_seconds; reflexivity.
  - apply Format_reads_back.
  - apply Format_inj.
Qed.

Lemma C9_witness :
  PubSubMessage.PublishTime (PubSubMessage.Message (transformMessage msg_m1 cfg_ps))
  = PubSubMessage.PublishTime
      (PubSubMessage.Message (transformMessage msg_m1_later cfg_ps))
  /\ instant.of_date_time
       (PubSubMessage.PublishTime
          (PubSubMessage.Message (transformMessage msg_m1_later cfg_ps)))
     = Some 1704067200
  /\ PubSubMessage.PublishTime (PubSubMessage.Message (transformMessage msg_m1 cfg_ps))
     <> PubSubMessage.PublishTime
          (PubSubMessage.Message (transformMessage msg_m1_next cfg_ps)).
Proof.
  assert (P1 : plain_time (pubsub.PublishTime msg_m1))
    by (repeat split; vm_compute; congruence).
  assert (P2 : plain_time (pubsub.PublishTime msg_m1_later))
    by (repeat split; vm_compute; congruence).
  assert (P3 : plain_time (pubsub.PublishTime msg_m1_next))
    by (repeat split; vm_compute; congruence).
  split; [|split].
  - destruct (C9_publishTime_whole_seconds msg_m1 msg_m1_later cfg_ps cfg_ps)
      as (H & _).
    apply H; reflexivity.
  - destruct (C9_publishTime_whole_seconds msg_m1_later msg_m1 cfg_ps cfg_ps)
      as (_ & _ & H & _).
    exact (H P2).
  - destruct (C9_publishTime_whole_seconds msg_m1 msg_m1_next cfg_ps cfg_ps)
      as (_ & _ & _ & H).
    intros Heq. destruct (H P1 P3 Heq) as [Hs _]. discriminate Hs.
Defined.

(** X11: what [Format] writes with the RFC3339 layout, for a timestamp
    whose year has four digits and whose zone offset is within a day: a
    text that names a day of the calendar and a second of the clock
    (month 01 to 12, day 01 to the length of that month in that year,
    leap years included, hour 00 to 23, minute and second 00 to 59, zone
    offset at most 23:59), and the date and clock written are those of
    the instant: the day number of the date, times 86400, plus the
    seconds of the clock, is the timestamp's second shifted by the zone
    offset. *)
Theorem format_fields_denote_instant (t : time.Time) :
  0 <= time.Year t <= 9999 ->
  -86400 < time.offset t < 86400 ->
  calendar.valid_date_time (time.Format t time.RFC3339) = true
  /\ calendar.local_second (time.Format t time.RFC3339)
     = Some (time.sec t + time.offset t).
Proof.
  intros Hy Ho. split.
  - apply Format_valid; assumption.
  - apply Format_local_second; assumption.
Qed.

Lemma format_fields_denote_instant_witness :
  time.Format
    {| time.sec := 1709231399; time.nsec := 7; time.offset := 19800 |}
    time.RFC3339
  = "2024-02-29T23:59:59+05:30"
  /\ calendar.valid_date_time "2024-02-29T23:59:59+05:30" = true
  /\ calendar.local_second "2024-02-29T23:59:59+05:30" = Some 1709251199.
Proof.
  destruct (format_fields_denote_instant
              {| time.sec := 1709231399; time.nsec := 7;
                 time.offset := 19800 |}) as [Hv Hl].
  - vm_compute. split; congruence.
  - vm_compute. split; congruence.
  - split; [vm_compute; reflexivity|]. split; [exact Hv | exact Hl].
Defined.

End publish_time.


(** ** The command line *)

Lemma classify_positional (s : string) :
  positional s -> flag.classify s = flag.not_a_flag.
Proof.
  intros [H| ->]; [|reflexivity].
  destruct s as [|c0 [|c1 tail]]; try reflexivity.
  cbn in H. cbn [flag.classify]. rewrite H. reflexivity.
Qed.

Lemma classify_terminator (s : string) :
  flag.classify s = flag.terminator -> s = "--".
Proof.
  destruct s as [|c0 [|c1 tail]]; try discriminate.
  cbn [flag.classify].
  destruct (Ascii.eqb_spec c0 "-"); [subst c0|discriminate]. cbn [negb].
  destruct (Ascii.eqb_spec c1 "-"); [subst c1|].
  - destruct (String.eqb_spec tail ""); [subst tail; reflexivity|].
    cbn [andb]. destruct tail as [|n0 rest]; [discriminate|].
    destruct (_ || _); [discriminate|].
    destruct (flag.cut_equals rest) as [[? ?]|]; discriminate.
  - cbn [andb]. destruct (_ || _); [discriminate|].
    destruct (flag.cut_equals tail) as [[? ?]|]; discriminate.
Qed.

(** Flags compose from left to right. *)
Lemma Parse_app (args1 args2 : list string) :
  forall (formal f1 : gmap string string),
    Forall (fun s => s <> "--") args1 ->
    flag.Parse formal args1 = inl (f1, []) ->
    flag.Parse formal (args1 ++ args2) = flag.Parse f1 args2.
Proof.
  assert (H : forall n (args1 : list string), length args1 <= n ->
            forall formal f1,
              Forall (fun s => s <> "--") args1 ->
              flag.Parse formal args1 = inl (f1, []) ->
              flag.Parse formal (args1 ++ args2) = flag.Parse f1 args2).
  { clear args1. induction n as [|n IH]; intros [|s rest] Hlen formal f1 Hno Hp;
      cbn [length] in Hlen; try lia.
    - cbn in Hp. injection Hp as ->. reflexivity.
    - cbn in Hp. injection Hp as ->. reflexivity.
    - apply Forall_cons in Hno as [Hs Hno].
      cbn [flag.Parse app] in *.
      destruct (flag.classify s) as [| | |name value] eqn:Hc.
      + discriminate.
      + apply classify_terminator in Hc. contradiction.
      + discriminate.
      + destruct (formal !! name); [|destruct (_ || _); discriminate].
        destruct value as [v|].
        * apply IH; [lia | assumption | assumption].
        * destruct rest as [|v rest']; [discriminate|].
          apply Forall_cons in Hno as [_ Hno]. cbn [app length] in *.
          apply IH; [lia | assumption | assumption]. }
  intros. eapply H; eauto.
Qed.

(** X13: parsing stops at the first argument that is not a flag, and
    every flag after it is ignored: when the arguments before it parse to
    the end, [parseFlags] decides as if the command line ended there.  In
    particular a command line that starts with such an argument is
    reported as missing [--project], whatever follows. *)
Theorem parseFlags_stops_at_positional
    (pre rest : list string) (x : string) (f1 : gmap string string) :
  positional x ->
  Forall (fun s => s <> "--") pre ->
  flag.Parse defined_flags pre = inl (f1, []) ->
  parseFlags (pre ++ x :: rest) = parseFlags pre
  /\ parseFlags (x :: rest)
     = Invalid (errorString "missing required argument: --project").
Proof.
  intros Hx Hno Hp. split.
  - unfold parseFlags. rewrite (Parse_app pre (x :: rest) _ _ Hno Hp), Hp.
    cbn [flag.Parse]. rewrite (classify_positional x Hx). reflexivity.
  - unfold parseFlags. cbn [flag.Parse].
    rewrite (classify_positional x Hx). reflexivity.
Qed.

(** X14: both ways of giving a value work, and a value is taken as it
    is: with [--name=value] the value is everything after the first
    [=], with [-name value] it is the next argument whatever it looks
    like.  A project or subscription given empty counts as missing, the
    project being checked first, and the URL has its default when not
    given. *)
Theorem parseFlags_value_forms (p s u : string) :
  parseFlags ["--project=" +:+ p; "--subscription=" +:+ s; "--url=" +:+ u]
  = (if String.eqb p "" then
       Invalid (errorString "missing required argument: --project")
     else if String.eqb s "" then
       Invalid (errorString "missing required argument: --subscription")
     else Parsed {| Project := p; Subscription := s; URL := u |})
  /\ parseFlags ["-project"; p; "-subscription"; s]
     = (if String.eqb p "" then
          Invalid (errorString "missing required argument: --project")
        else if String.eqb s "" then
          Invalid (errorString "missing required argument: --subscription")
        else Parsed {| Project := p; Subscription := s;
                       URL := "http://localhost:8080" |}).
Proof.
  split; vm_compute; reflexivity.
Qed.

Lemma lookup_defined_inv (f : gmap string string) (name : string) :
  default "" (f !! name) <> "" -> is_Some (f !! name).
Proof. destruct (f !! name); [eauto | intros H; contradiction]. Qed.

(** X15: a flag given again replaces the earlier value: after
    arguments that parse to the end and make a valid configuration, one
    more [--project=p] with a non-empty [p] gives the same configuration
    with project [p]. *)
Theorem parseFlags_last_value_wins
    (pre : list string) (f1 : gmap string string) (cfg : Config) (p : string) :
  Forall (fun s => s <> "--") pre ->
  flag.Parse defined_flags pre = inl (f1, []) ->
  parseFlags pre = Parsed cfg ->
  p <> "" ->
  parseFlags (pre ++ ["--project=" +:+ p]) = Parsed (with_project cfg p).
Proof.
  intros Hno Hp Hcfg Hne. unfold parseFlags in *.
  rewrite (Parse_app pre _ _ _ Hno Hp). rewrite Hp in Hcfg.
  destruct (String.eqb_spec (default "" (f1 !! "project")) "") as [|Hproj];
    [discriminate|].
  destruct (String.eqb_spec (default "" (f1 !! "subscription")) "") as [|Hsub];
    [discriminate|].
  injection Hcfg as <-.
  destruct (lookup_defined_inv f1 "project" Hproj) as [old Hold].
  cbn [flag.Parse].
  change (flag.classify ("--project=" +:+ p))
    with (flag.a_flag "project" (Some p)).
  cbv iota beta. rewrite Hold. cbv iota beta.
  rewrite lookup_insert_eq.
  rewrite !lookup_insert_ne by discriminate. rewrite Hold in *.
  cbn [default from_option id option_map] in *.
  destruct (String.eqb_spec p ""); [contradiction|].
  destruct (String.eqb_spec (default "" (f1 !! "subscription")) "");
    [contradiction|].
  reflexivity.
Qed.

(** Parsing changes the values of flags, never which flags are defined. *)
Lemma Parse_defined (args : list string) :
  forall (formal f1 : gmap string string) (left : list string),
    flag.Parse formal args = inl (f1, left) ->
    forall name, f1 !! name = None <-> formal !! name = None.
Proof.
  assert (Hins : forall (formal : gmap string string) k v name,
            is_Some (formal !! k) ->
            <[k := v]> formal !! name = None <-> formal !! name = None).
  { intros formal k v name [old Hk]. rewrite lookup_insert_None.
    split; [intros [H _]; exact H|].
    intros H. split; [exact H|]. intros ->. congruence. }
  assert (H : forall n (args : list string), length args <= n ->
            forall formal f1 left,
              flag.Parse formal args = inl (f1, left) ->
              forall name, f1 !! name = None <-> formal !! name = None).
  { clear args. induction n as [|n IH]; intros [|s rest] Hlen formal f1 left Hp;
      cbn [length] in Hlen; try lia.
    - cbn in Hp. injection Hp as -> _. reflexivity.
    - cbn in Hp. injection Hp as -> _. reflexivity.
    - cbn [flag.Parse] in Hp.
      destruct (flag.classify s) as [| | |k value].
      + injection Hp as -> _. reflexivity.
      + injection Hp as -> _. reflexivity.
      + discriminate.
      + destruct (formal !! k) as [old|] eqn:Hk;
          [|destruct (_ || _); discriminate].
        destruct value as [v|].
        * intros name. rewrite (IH rest ltac:(lia) _ _ _ Hp name).
          apply Hins. eauto.
        * destruct rest as [|v rest']; [discriminate|]. cbn [length] in Hlen.
          intros name. rewrite (IH rest' ltac:(lia) _ _ _ Hp name).
          apply Hins. eauto. }
  intros. eapply H; eauto.
Qed.

(** X16: an argument read as a flag (the first argument, or one that
    follows flags that parsed to the end, each with its value) that
    names a flag that is not defined ends the process inside
    [flag.Parse], before any validation and whatever follows: with
    status 0 when the name is [h] or [help] (one or two dashes), with
    status 2 otherwise; and a defined flag that is read as a flag, has
    no [=value] and is the last argument ends it with status 2.  (An
    argument that follows a flag without [=value] is not read as a flag:
    it is that flag's value.) *)
Theorem parseFlags_exits_on_bad_flag
    (pre : list string) (f1 : gmap string string)
    (s name : string) (value : option string) (rest : list string) :
  Forall (fun s => s <> "--") pre ->
  flag.Parse defined_flags pre = inl (f1, []) ->
  flag.classify s = flag.a_flag name value ->
  (defined_flags !! name = None ->
   parseFlags (pre ++ s :: rest)
   = Exited (if String.eqb name "help" || String.eqb name "h" then 0 else 2))
  /\ (is_Some (defined_flags !! name) -> value = None ->
      parseFlags (pre ++ [s]) = Exited 2).
Proof.
  intros Hno Hp Hc. unfold parseFlags.
  rewrite !(Parse_app pre _ _ _ Hno Hp). cbn [flag.Parse]. rewrite Hc.
  pose proof (Parse_defined pre _ _ _ Hp name) as Hdef. split.
  - intros Hn. apply Hdef in Hn. rewrite Hn. destruct (_ || _); reflexivity.
  - intros [v Hv] ->.
    destruct (f1 !! name) as [w|] eqn:Hw; [reflexivity|].
    rewrite (proj1 Hdef eq_refl) in Hv. discriminate.
Qed.


(** ** Set-up and [main] *)

Section process_facts.

Variable pubsub_NewClient : string -> option error.
Variable sub_Exists : string -> string -> bool + error.
Variable client_Close : option error.
Variable service : string -> string -> Receive_run.
Variable url_Parse : string -> option error.
Variable transport : nat -> http.Request -> http.Response + error.

Local Abbreviation setup :=
  (setupPubSubClient pubsub_NewClient sub_Exists service).
Local Abbreviation main_of :=
  (main pubsub_NewClient sub_Exists client_Close service url_Parse transport).
Local Abbreviation run :=
  (consumeMessages json.Marshal url_Parse transport).

(** The four ways [setupPubSubClient] can go. *)
Lemma setup_cases (cfg : Config) :
  (exists err, pubsub_NewClient (Project cfg) = Some err
     /\ setup cfg
        = ([PNewClient (Project cfg)],
           inr (Errorf_w "failed to create Pub/Sub client: " err)))
  \/ (pubsub_NewClient (Project cfg) = None
      /\ ((exists err,
             sub_Exists (Project cfg) (Subscription cfg) = inr err
             /\ setup cfg
                = ([PNewClient (Project cfg); PExists (Subscription cfg);
                    PClose],
                   inr (Errorf_w
                          "failed to verify subscription existence: " err)))
          \/ (sub_Exists (Project cfg) (Subscription cfg) = inl false
              /\ setup cfg
                 = ([PNewClient (Project cfg); PExists (Subscription cfg);
                     PClose],
                    inr (errorString ("subscription " +:+ Subscription cfg
                                      +:+ " does not exist"))))
          \/ (sub_Exists (Project cfg) (Subscription cfg) = inl true
              /\ setup cfg
                 = ([PNewClient (Project cfg); PExists (Subscription cfg);
                     PEv (EvLog ("Connected to Pub/Sub subscription: "
                                 +:+ Subscription cfg))],
                    inl (service (Project cfg) (Subscription cfg)))))).
Proof.
  unfold setupPubSubClient.
  destruct (pubsub_NewClient (Project cfg)) as [err|].
  { left. exists err. split; reflexivity. }
  right. split; [reflexivity|].
  destruct (sub_Exists (Project cfg) (Subscription cfg)) as [[|]|err].
  - right. right. split; reflexivity.
  - right. left. split; reflexivity.
  - left. exists err. split; reflexivity.
Qed.

(** X17: [setupPubSubClient] hands out the subscription exactly when
    the client could be made and the subscription was found to exist;
    the existence check is made only with a client; and each failure
    gives an error that says which step failed, wrapping the cause or
    naming the subscription. *)
Theorem setup_succeeds_iff_subscription_exists (cfg : Config) :
  ((exists sub, (setup cfg).2 = inl sub)
   <-> pubsub_NewClient (Project cfg) = None
       /\ sub_Exists (Project cfg) (Subscription cfg) = inl true)
  /\ (forall err, pubsub_NewClient (Project cfg) = Some err ->
      (setup cfg).2
      = inr (wrapError ("failed to create Pub/Sub client: " +:+ Error err) err)
      /\ ~ In (PExists (Subscription cfg)) (setup cfg).1)
  /\ (forall err, pubsub_NewClient (Project cfg) = None ->
      sub_Exists (Project cfg) (Subscription cfg) = inr err ->
      (setup cfg).2
      = inr (wrapError ("failed to verify subscription existence: "
                        +:+ Error err) err))
  /\ (pubsub_NewClient (Project cfg) = None ->
      sub_Exists (Project cfg) (Subscription cfg) = inl false ->
      (setup cfg).2
      = inr (errorString ("subscription " +:+ Subscription cfg
                          +:+ " does not exist"))).
Proof.
  destruct (setup_cases cfg)
    as [(err & Hn & ->)
       | (Hn & [(err & He & ->) | [(He & ->) | (He & ->)]])];
    cbn [fst snd]; rewrite Hn; try rewrite He.
  - split; [split; [intros [? ?]; discriminate | intros [? _]; discriminate]|].
    split; [|split; intros; discriminate].
    intros e He. injection He as <-. split; [reflexivity|].
    intros [Hin|[]]. discriminate.
  - split; [split; [intros [? ?]; discriminate | intros [_ ?]; discriminate]|].
    split; [intros; discriminate|]. split; [|intros; discriminate].
    intros e _ He'. injection He' as <-. reflexivity.
  - split; [split; [intros [? ?]; discriminate | intros [_ ?]; discriminate]|].
    split; [intros; discriminate|]. split; [intros; discriminate|].
    reflexivity.
  - split; [split; [auto | intros _; eexists; reflexivity]|].
    split; [intros; discriminate|]. split; intros; discriminate.
Qed.

(** X18: [setupPubSubClient] never leaves a client open behind an
    error: when the client was made and set-up fails, the client is
    closed, once, as the last thing; when set-up succeeds the client
    stays open; when no client was made nothing is closed. *)
Theorem setup_closes_client_on_failure (cfg : Config) :
  closes (setup cfg).1
  = match pubsub_NewClient (Project cfg), (setup cfg).2 with
    | None, inr _ => 1
    | _, _ => 0
    end
  /\ (pubsub_NewClient (Project cfg) = None ->
      (exists err, (setup cfg).2 = inr err) ->
      last (setup cfg).1 = Some PClose).
Proof.
  destruct (setup_cases cfg)
    as [(err & Hn & ->)
       | (Hn & [(err & He & ->) | [(He & ->) | (He & ->)]])];
    cbn [fst snd]; rewrite Hn; split; try reflexivity.
  - intros ?; discriminate.
  - intros _ [? ?]; discriminate.
Qed.

(** [main], path by path. *)
Lemma main_exited args code :
  parseFlags args = Exited code -> main_of args = ([], code).
Proof. intros H. unfold main. rewrite H. reflexivity. Qed.

Lemma main_invalid args err :
  parseFlags args = Invalid err ->
  main_of args
  = ([PEv (EvLog ("Argument parsing error: " +:+ Error err))], 1%Z).
Proof. intros H. unfold main. rewrite H. reflexivity. Qed.

Lemma main_setup_failed args cfg evs err :
  parseFlags args = Parsed cfg -> setup cfg = (evs, inr err) ->
  main_of args
  = (PEv (EvLog (starting_line cfg)) :: evs
     ++ [PEv (EvLog ("Pub/Sub setup error: " +:+ Error err))], 1%Z).
Proof.
  intros H Hs. unfold main. rewrite H.
  unfold mbind, P_bind, plog, pemit. rewrite Hs. reflexivity.
Qed.

Lemma main_loop_failed args cfg evs sub err :
  parseFlags args = Parsed cfg -> setup cfg = (evs, inl sub) ->
  (run sub cfg world0).1 = Some err ->
  main_of args
  = (PEv (EvLog (starting_line cfg)) :: evs
     ++ (PEv <$> trace (run sub cfg world0).2)
     ++ [PEv (EvLog ("Message consumption error: " +:+ Error err))], 1%Z).
Proof.
  intros H Hs Hr. unfold main. rewrite H.
  unfold mbind, P_bind, plog, pemit, from_start. rewrite Hs.
  destruct (run sub cfg world0) as [r w]. cbn [fst snd] in *. subst r.
  cbn. reflexivity.
Qed.

Lemma main_clean_stop args cfg evs sub :
  parseFlags args = Parsed cfg -> setup cfg = (evs, inl sub) ->
  (run sub cfg world0).1 = None ->
  main_of args
  = (PEv (EvLog (starting_line cfg)) :: evs
     ++ (PEv <$> trace (run sub cfg world0).2)
     ++ [PEv (EvLog "Graceful shutdown complete. Exiting application.");
         PClose]
     ++ match client_Close with
        | Some e =>
            [PEv (EvLog ("Error closing Pub/Sub client: " +:+ Error e))]
        | None => []
        end
     ++ [PCancel], 0%Z).
Proof.
  intros H Hs Hr. unfold main. rewrite H.
  unfold mbind, P_bind, plog, pemit, from_start, deferred. rewrite Hs.
  destruct (run sub cfg world0) as [r w]. cbn [fst snd] in *. subst r.
  unfold mbind, P_bind, plog, pemit.
  destruct client_Close; cbn; rewrite <- ?app_assoc; reflexivity.
Qed.

Lemma closes_app (a b : list proc_event) : closes (a ++ b) = closes a + closes b.
Proof. unfold closes. rewrite List.filter_app, length_app. reflexivity. Qed.

Lemma closes_loop (tr : list event) : closes (PEv <$> tr) = 0.
Proof. induction tr as [|e tr IH]; [reflexivity | exact IH]. Qed.

Lemma loop_events_app (a b : list proc_event) :
  loop_events (a ++ b) = loop_events a ++ loop_events b.
Proof. apply omap_app. Qed.

Lemma loop_events_loop (tr : list event) : loop_events (PEv <$> tr) = tr.
Proof.
  induction tr as [|e tr IH]; [reflexivity|]. cbn. f_equal. exact IH.
Qed.

Lemma parseFlags_Parsed_inv args cfg :
  parseFlags args = Parsed cfg -> Project cfg <> "" /\ Subscription cfg <> "".
Proof.
  unfold parseFlags.
  destruct (flag.Parse defined_flags args) as [[values rest]|[|msg]];
    try discriminate.
  destruct (String.eqb_spec (default "" (values !! "project")) "");
    [discriminate|].
  destruct (String.eqb_spec (default "" (values !! "subscription")) "");
    [discriminate|].
  intros H. injection H as <-. split; assumption.
Qed.

Lemma run_result sub cfg :
  (run sub cfg world0).1 = loop_result (termination sub).
Proof. rewrite consumeMessages_run. reflexivity. Qed.

(** X19: the process ends with status 0 in two cases only: help was
    asked for on the command line, or the command line was valid, the
    client was made, the subscription exists and [Receive] ended with nil
    or with the cancellation signal.  An invalid configuration, a failed
    set-up and any other end of [Receive] give status 1. *)
Theorem main_exit_status (args : list string) :
  ((main_of args).2 = 0%Z
   <-> parseFlags args = Exited 0
       \/ exists cfg,
            parseFlags args = Parsed cfg
            /\ pubsub_NewClient (Project cfg) = None
            /\ sub_Exists (Project cfg) (Subscription cfg) = inl true
            /\ loop_result
                 (termination (service (Project cfg) (Subscription cfg)))
               = None)
  /\ (forall cfg, parseFlags args = Parsed cfg ->
      (main_of args).2 = 0%Z \/ (main_of args).2 = 1%Z)
  /\ (forall err, parseFlags args = Invalid err -> (main_of args).2 = 1%Z).
Proof.
  destruct (parseFlags args) as [cfg|err|code] eqn:Hp.
  - assert (Hcases :
      ((main_of args).2 = 0%Z
       /\ pubsub_NewClient (Project cfg) = None
       /\ sub_Exists (Project cfg) (Subscription cfg) = inl true
       /\ loop_result
            (termination (service (Project cfg) (Subscription cfg))) = None)
      \/ ((main_of args).2 = 1%Z
          /\ ~ (pubsub_NewClient (Project cfg) = None
                /\ sub_Exists (Project cfg) (Subscription cfg) = inl true
                /\ loop_result
                     (termination (service (Project cfg) (Subscription cfg)))
                   = None))).
    { destruct (setup_cases cfg)
        as [(err & Hn & Hs)
           | (Hn & [(err & He & Hs) | [(He & Hs) | (He & Hs)]])].
      1-3: right; rewrite (main_setup_failed _ _ _ _ Hp Hs);
        split; [reflexivity | intros (? & ? & ?); congruence].
      destruct (loop_result
                  (termination (service (Project cfg) (Subscription cfg))))
        as [e|] eqn:Hr.
      - right. rewrite (main_loop_failed _ _ _ _ e Hp Hs)
          by (rewrite run_result; exact Hr).
        split; [reflexivity | intros (? & ? & ?); congruence].
      - left. rewrite (main_clean_stop _ _ _ _ Hp Hs)
          by (rewrite run_result; exact Hr).
        auto. }
    split; [|split].
    + split.
      * intros H0. right. exists cfg.
        destruct Hcases as [(_ & ? & ? & ?) | (H1 & _)]; [auto | congruence].
      * intros [?|(cfg' & Heq & Hok)]; [discriminate|].
        injection Heq as <-.
        destruct Hcases as [(? & _) | (_ & Hnot)]; [assumption | contradiction].
    + intros _ _. destruct Hcases as [(? & _) | (? & _)]; auto.
    + intros ?; discriminate.
  - rewrite (main_invalid _ _ Hp). cbn [snd].
    split; [|split].
    + split; [discriminate | intros [?|(? & ? & _)]; discriminate].
    + intros ?; discriminate.
    + reflexivity.
  - rewrite (main_exited _ _ Hp). cbn [snd].
    split; [|split].
    + split; [intros ->; left; reflexivity
             | intros [H|(? & ? & _)]; [congruence | discriminate]].
    + intros ?; discriminate.
    + intros ?; discriminate.
Qed.

(** X20: nothing is sent and no message is settled unless the command
    line was valid and set-up succeeded: a request, an [Ack] or a [Nack]
    among the events of [main] means that the configuration was parsed,
    the client was made and the subscription exists. *)
Theorem main_delivers_only_after_setup (args : list string) (e : event) :
  In (PEv e) (main_of args).1 ->
  is_POST e = true \/ is_settlement e = true ->
  exists cfg,
    parseFlags args = Parsed cfg
    /\ pubsub_NewClient (Project cfg) = None
    /\ sub_Exists (Project cfg) (Subscription cfg) = inl true.
Proof.
  intros Hin He.
  assert (Hlog : forall line, e <> EvLog line).
  { intros line ->. destruct He; discriminate. }
  destruct (parseFlags args) as [cfg|err|code] eqn:Hp.
  - destruct (setup_cases cfg)
      as [(err & Hn & Hs)
         | (Hn & [(err & He' & Hs) | [(He' & Hs) | (He' & Hs)]])].
    4: exists cfg; auto.
    all: rewrite (main_setup_failed _ _ _ _ Hp Hs) in Hin; cbn in Hin.
    all: repeat (destruct Hin as [Hin|Hin];
                 [first [discriminate | injection Hin as <-;
                         exfalso; eapply Hlog; reflexivity]|]).
    all: destruct Hin.
  - rewrite (main_invalid _ _ Hp) in Hin. cbn in Hin.
    destruct Hin as [Hin|[]]. injection Hin as <-.
    exfalso; eapply Hlog; reflexivity.
  - rewrite (main_exited _ _ Hp) in Hin. destruct Hin.
Qed.

(** X21: the client is closed at most once.  After a clean stop it is
    closed exactly once, after the line that reports the shutdown, and
    the context is cancelled last.  When [consumeMessages] returns an
    error the process exits from [log.Fatalf] with status 1 and the
    client is never closed, nor the context cancelled: the deferred
    calls do not run. *)
Theorem main_close_discipline (args : list string) :
  closes (main_of args).1 <= 1
  /\ (forall cfg sub evs,
        parseFlags args = Parsed cfg -> setup cfg = (evs, inl sub) ->
        (run sub cfg world0).1 = None ->
        closes (main_of args).1 = 1
        /\ last (main_of args).1 = Some PCancel
        /\ exists before after,
             (main_of args).1
             = before
               ++ [PEv (EvLog "Graceful shutdown complete. Exiting application.");
                   PClose] ++ after)
  /\ (forall cfg sub evs err,
        parseFlags args = Parsed cfg -> setup cfg = (evs, inl sub) ->
        (run sub cfg world0).1 = Some err ->
        closes (main_of args).1 = 0
        /\ ~ In PCancel (main_of args).1
        /\ (main_of args).2 = 1%Z).
Proof.
  assert (Hsetup_ok : forall cfg evs sub, setup cfg = (evs, inl sub) ->
            closes evs = 0 /\ ~ In PCancel evs).
  { intros cfg evs sub Hs.
    destruct (setup_cases cfg)
      as [(err & Hn & Hs')
         | (Hn & [(err & He' & Hs') | [(He' & Hs') | (He' & Hs')]])];
      rewrite Hs' in Hs; try discriminate.
    injection Hs as <- _. split; [reflexivity|].
    intros [?|[?|[?|[]]]]; discriminate. }
  assert (Hloop : forall tr : list event, ~ In PCancel (PEv <$> tr)).
  { intros tr Hin. apply list_elem_of_In, list_elem_of_fmap in Hin
      as (? & ? & _). discriminate. }
  split; [|split].
  - destruct (parseFlags args) as [cfg|err|code] eqn:Hp.
    + destruct (setup cfg) as [evs [sub|err]] eqn:Hs.
      * destruct (Hsetup_ok _ _ _ Hs) as [Hc _].
        destruct (run sub cfg world0).1 as [e|] eqn:Hr.
        -- rewrite (main_loop_failed _ _ _ _ e Hp Hs Hr). cbn [fst].
           change (PEv (EvLog (starting_line cfg)) :: ?l)
             with ([PEv (EvLog (starting_line cfg))] ++ l).
           rewrite !closes_app, Hc, closes_loop. cbn. lia.
        -- rewrite (main_clean_stop _ _ _ _ Hp Hs Hr). cbn [fst].
           change (PEv (EvLog (starting_line cfg)) :: ?l)
             with ([PEv (EvLog (starting_line cfg))] ++ l).
           rewrite !closes_app, Hc, closes_loop.
           destruct client_Close; cbn; lia.
      * rewrite (main_setup_failed _ _ _ _ Hp Hs). cbn [fst].
        change (PEv (EvLog (starting_line cfg)) :: ?l)
          with ([PEv (EvLog (starting_line cfg))] ++ l).
        rewrite !closes_app.
        destruct (setup_cases cfg)
          as [(e & Hn & Hs')
             | (Hn & [(e & He' & Hs') | [(He' & Hs') | (He' & Hs')]])];
          rewrite Hs' in Hs; injection Hs as <- ?; cbn; lia.
    + rewrite (main_invalid _ _ Hp). cbn. lia.
    + rewrite (main_exited _ _ Hp). cbn. lia.
  - intros cfg sub evs Hp Hs Hr. destruct (Hsetup_ok _ _ _ Hs) as [Hc _].
    rewrite (main_clean_stop _ _ _ _ Hp Hs Hr). cbn [fst]. split; [|split].
    + change (PEv (EvLog (starting_line cfg)) :: ?l)
        with ([PEv (EvLog (starting_line cfg))] ++ l).
      rewrite !closes_app, Hc, closes_loop.
      destruct client_Close; cbn; lia.
    + rewrite app_comm_cons, !app_assoc. apply last_snoc.
    + exists (PEv (EvLog (starting_line cfg)) :: evs
              ++ (PEv <$> trace (run sub cfg world0).2)).
      eexists. cbn [app]. rewrite <- ?app_assoc. reflexivity.
  - intros cfg sub evs err Hp Hs Hr. destruct (Hsetup_ok _ _ _ Hs) as [Hc Hnc].
    rewrite (main_loop_failed _ _ _ _ err Hp Hs Hr). cbn [fst snd].
    split; [|split; [|reflexivity]].
    + change (PEv (EvLog (starting_line cfg)) :: ?l)
        with ([PEv (EvLog (starting_line cfg))] ++ l).
      rewrite !closes_app, Hc, closes_loop. reflexivity.
    + intros [Hin|Hin]; [discriminate|].
      apply in_app_or in Hin as [Hin|Hin]; [contradiction|].
      apply in_app_or in Hin as [Hin|[Hin|[]]]; [|discriminate].
      exact (Hloop _ Hin).
Qed.

(** X22: the Pub/Sub service is only ever called with a non-empty
    project and a non-empty subscription identifier. *)
Theorem main_calls_service_with_identifiers (args : list string) :
  (forall p,
     In (PNewClient p)
       (main pubsub_NewClient sub_Exists client_Close service url_Parse
          transport args).1 ->
     p <> "")
  /\ (forall s,
        In (PExists s)
          (main pubsub_NewClient sub_Exists client_Close service url_Parse
             transport args).1 ->
        s <> "").
Proof.
  assert (Hloop : forall (tr : list event) e,
            In e (PEv <$> tr) -> exists e', e = PEv e').
  { intros tr e Hin. apply list_elem_of_In, list_elem_of_fmap in Hin
      as (e' & -> & _). eauto. }
  assert (H : forall e, In e (main_of args).1 ->
            (forall p, e = PNewClient p -> p <> "")
            /\ (forall s, e = PExists s -> s <> "")).
  { intros e Hin.
    destruct (parseFlags args) as [cfg|err|code] eqn:Hp.
    - destruct (parseFlags_Parsed_inv _ _ Hp) as [Hproj Hsub].
      assert (Hsetup : forall e, In e (setup cfg).1 ->
                (forall p, e = PNewClient p -> p <> "")
                /\ (forall s, e = PExists s -> s <> "")).
      { intros e0 Hin0.
        destruct (setup_cases cfg)
          as [(e1 & Hn & Hs')
             | (Hn & [(e1 & He' & Hs') | [(He' & Hs') | (He' & Hs')]])];
          rewrite Hs' in Hin0; cbn in Hin0.
        all: repeat (destruct Hin0 as [<-|Hin0];
                     [split; intros ? Heq; try discriminate;
                      injection Heq as <-; assumption|]).
        all: destruct Hin0. }
      destruct (setup cfg) as [evs [sub|err]] eqn:Hs; cbn [fst] in Hsetup.
      + destruct (run sub cfg world0).1 as [e1|] eqn:Hr.
        * rewrite (main_loop_failed _ _ _ _ e1 Hp Hs Hr) in Hin.
          cbn [fst] in Hin. destruct Hin as [<-|Hin];
            [split; intros; discriminate|].
          apply in_app_or in Hin as [Hin|Hin]; [auto|].
          apply in_app_or in Hin as [Hin|[<-|[]]];
            [|split; intros; discriminate].
          destruct (Hloop _ _ Hin) as [e' ->]. split; intros; discriminate.
        * rewrite (main_clean_stop _ _ _ _ Hp Hs Hr) in Hin.
          cbn [fst] in Hin. destruct Hin as [<-|Hin];
            [split; intros; discriminate|].
          apply in_app_or in Hin as [Hin|Hin]; [auto|].
          apply in_app_or in Hin as [Hin|Hin].
          { destruct (Hloop _ _ Hin) as [e' ->]. split; intros; discriminate. }
          apply in_app_or in Hin as [[<-|[<-|[]]]|Hin];
            try (split; intros; discriminate).
          apply in_app_or in Hin as [Hin|[<-|[]]];
            [|split; intros; discriminate].
          destruct client_Close; [|destruct Hin].
          destruct Hin as [<-|[]]. split; intros; discriminate.
      + rewrite (main_setup_failed _ _ _ _ Hp Hs) in Hin.
        cbn [fst] in Hin. destruct Hin as [<-|Hin];
          [split; intros; discriminate|].
        apply in_app_or in Hin as [Hin|[<-|[]]];
          [auto | split; intros; discriminate].
    - rewrite (main_invalid _ _ Hp) in Hin. destruct Hin as [<-|[]].
      split; intros; discriminate.
    - rewrite (main_exited _ _ Hp) in Hin. destruct Hin. }
  split; intros x Hin; destruct (H _ Hin) as [H1 H2]; auto.
Qed.

(** X23: in [main], once set-up has succeeded, every message the
    service delivers is settled exactly once among the events of the
    process: by its [Ack] when [sendPOST] returned nil in its callback,
    by its [Nack] otherwise. *)
Theorem main_settles_every_delivery
    (args : list string) (cfg : Config) (evs : list proc_event)
    (sub : Receive_run) (h : nat) (msg : pubsub.Message) :
  parseFlags args = Parsed cfg ->
  setup cfg = (evs, inl sub) ->
  deliveries sub !! h = Some msg ->
  sub = service (Project cfg) (Subscription cfg)
  /\ settled h (loop_events (main_of args).1)
     = [verdict h
          (delivery_result json.Marshal url_Parse transport sub cfg h msg)].
Proof.
  intros Hp Hs Hh.
  assert (Hevs : sub = service (Project cfg) (Subscription cfg)
                 /\ loop_events evs
                    = [EvLog ("Connected to Pub/Sub subscription: "
                              +:+ Subscription cfg)]).
  { destruct (setup_cases cfg)
      as [(e1 & Hn & Hs')
         | (Hn & [(e1 & He' & Hs') | [(He' & Hs') | (He' & Hs')]])];
      rewrite Hs' in Hs; try discriminate.
    injection Hs as <- <-. split; reflexivity. }
  destruct Hevs as [Hsub Hevs]. split; [exact Hsub|].
  pose proof (run_settled json.Marshal url_Parse transport cfg sub h) as Hrun.
  rewrite Hh in Hrun.
  destruct (run sub cfg world0).1 as [e1|] eqn:Hr.
  - rewrite (main_loop_failed _ _ _ _ e1 Hp Hs Hr). cbn [fst].
    change (PEv (EvLog (starting_line cfg)) :: ?l)
      with ([PEv (EvLog (starting_line cfg))] ++ l).
    rewrite !loop_events_app, Hevs, loop_events_loop.
    rewrite !settled_app, Hrun. reflexivity.
  - rewrite (main_clean_stop _ _ _ _ Hp Hs Hr). cbn [fst].
    change (PEv (EvLog (starting_line cfg)) :: ?l)
      with ([PEv (EvLog (starting_line cfg))] ++ l).
    rewrite !loop_events_app, Hevs, loop_events_loop.
    rewrite !settled_app, Hrun.
    destruct client_Close; reflexivity.
Qed.

End process_facts.

(** ** The further properties at concrete inputs *)

Lemma Parse_flags_ps :
  flag.Parse defined_flags ["--project=p"; "--subscription=s"]
  = inl (flags_ps, []).
Proof. vm_compute. reflexivity. Qed.

Lemma no_terminator_ps :
  Forall (fun s : string => s <> "--") ["--project=p"; "--subscription=s"].
Proof. repeat constructor; discriminate. Qed.

Lemma setup_ps :
  setupPubSubClient newclient_ok exists_yes service3 cfg_ps
  = ([PNewClient "p"; PExists "s";
      PEv (EvLog "Connected to Pub/Sub subscription: s")], inl run3).
Proof. reflexivity. Qed.

Lemma setup_ps_broken :
  setupPubSubClient newclient_ok exists_yes service_broken cfg_ps
  = ([PNewClient "p"; PExists "s";
      PEv (EvLog "Connected to Pub/Sub subscription: s")], inl run_broken).
Proof. reflexivity. Qed.

Lemma parseFlags_args_ps : parseFlags args_ps = Parsed cfg_ps.
Proof. vm_compute. reflexivity. Qed.

Lemma sendPOST_at_most_one_request_witness :
  (sendPOST marshal_fails parse_ok endpoint "http://x/y"
     (transformMessage msg_m1 cfg_ps) world0).2 = world0.
Proof.
  destruct (sendPOST_at_most_one_request marshal_fails parse_ok endpoint
              "http://x/y" (transformMessage msg_m1 cfg_ps) world0)
    as (evs & _ & _ & _ & H).
  apply H. left. eexists. reflexivity.
Defined.

Lemma sendPOST_request_shape_witness :
  exists body,
    json.Marshal (transformMessage msg_m1 cfg_ps) = inl body
    /\ post_request "http://x/y" body_m1
       = {| http.Method := "POST"; http.URL := "http://x/y";
            http.Header := [("Content-Type", "application/json")];
            http.Body := body |}.
Proof.
  apply (sendPOST_request_shape json.Marshal parse_ok endpoint "http://x/y"
           (transformMessage msg_m1 cfg_ps) world0).
  vm_compute. left. reflexivity.
Defined.

Lemma ack_only_after_2xx_witness :
  exists msg body resp,
    deliveries run3 !! 0 = Some msg
    /\ json.Marshal (transformMessage msg cfg_ps) = inl body
    /\ parse_ok (URL cfg_ps) = None
    /\ endpoint
         (roundtrips (world_before json.Marshal parse_ok endpoint run3 cfg_ps 0))
         (post_request (URL cfg_ps) body) = inl resp
    /\ in_2xx resp.
Proof.
  apply (ack_only_after_2xx json.Marshal parse_ok endpoint cfg_ps run3 0).
  vm_compute. right. right. left. reflexivity.
Defined.

Lemma requests_per_delivery_witness :
  requests (trace (consumeMessages json.Marshal parse_ok endpoint run3 cfg_ps
                     world0).2) = 3.
Proof.
  destruct (requests_per_delivery json.Marshal parse_ok endpoint cfg_ps run3)
    as (_ & _ & H).
  apply H; [|reflexivity].
  repeat constructor; eexists; reflexivity.
Defined.

Lemma rejected_url_nacks_every_message_witness :
  requests (trace (consumeMessages json.Marshal parse_bad endpoint run3 cfg_ps
                     world0).2) = 0
  /\ settled 0 (trace (consumeMessages json.Marshal parse_bad endpoint run3
                         cfg_ps world0).2) = [EvNack 0].
Proof.
  destruct (rejected_url_nacks_every_message json.Marshal parse_bad endpoint
              cfg_ps run3 (errorString "parse: missing protocol scheme")
              0 msg_m1 eq_refl eq_refl) as (H1 & H2 & _).
  split; [exact H1 | exact H2].
Defined.

Lemma attributes_in_key_order_witness :
  exists members : list (string * json.value),
    json.of_map (Some {[ "k" := "v" ]}) = json.JObject members
    /\ ("k" ∈ members.*1 <-> is_Some (({[ "k" := "v" ]} : gmap string string) !! "k")).
Proof.
  destruct (attributes_in_key_order {[ "k" := "v" ]})
    as (members & H1 & _ & _ & _ & H5).
  exists members. split; [exact H1 | exact (H5 "k")].
Defined.

Lemma publishTime_reads_back_witness :
  instant.of_date_time
    (PubSubMessage.PublishTime
       (PubSubMessage.Message (transformMessage msg_m1_later cfg_ps)))
  = Some 1704067200%Z.
Proof.
  apply (publishTime_reads_back msg_m1_later cfg_ps).
  - vm_compute. split; congruence.
  - vm_compute. split; congruence.
  - reflexivity.
Defined.

Lemma parseFlags_stops_at_positional_witness :
  parseFlags (["--project=p"; "--subscription=s"] ++ "x" :: ["--url=u"])
  = parseFlags ["--project=p"; "--subscription=s"]
  /\ parseFlags ("x" :: ["--url=u"])
     = Invalid (errorString "missing required argument: --project").
Proof.
  apply (parseFlags_stops_at_positional _ _ "x" flags_ps).
  - left. reflexivity.
  - exact no_terminator_ps.
  - exact Parse_flags_ps.
Defined.

Lemma parseFlags_last_value_wins_witness :
  parseFlags (["--project=p"; "--subscription=s"] ++ ["--project=" +:+ "q"])
  = Parsed (with_project
              {| Project := "p"; Subscription := "s"; URL := default_url |}
              "q").
Proof.
  apply (parseFlags_last_value_wins _ flags_ps).
  - exact no_terminator_ps.
  - exact Parse_flags_ps.
  - vm_compute. reflexivity.
  - discriminate.
Defined.

Lemma parseFlags_exits_on_bad_flag_witness :
  parseFlags ["--project=p"; "--bogus"; "--subscription=s"] = Exited 2
  /\ parseFlags ["--project=p"; "-h"] = Exited 0
  /\ parseFlags ["--project=p"; "-url"] = Exited 2.
Proof.
  assert (Hno : Forall (fun s : string => s <> "--") ["--project=p"])
    by (repeat constructor; discriminate).
  assert (Hp : flag.Parse defined_flags ["--project=p"]
               = inl (<["project" := "p"]> defined_flags, []))
    by reflexivity.
  split; [|split].
  - destruct (parseFlags_exits_on_bad_flag ["--project=p"] _ "--bogus" "bogus"
                None ["--subscription=s"] Hno Hp eq_refl) as [H _].
    apply H. reflexivity.
  - destruct (parseFlags_exits_on_bad_flag ["--project=p"] _ "-h" "h"
                None [] Hno Hp eq_refl) as [H _].
    apply H. reflexivity.
  - destruct (parseFlags_exits_on_bad_flag ["--project=p"] _ "-url" "url"
                None [] Hno Hp eq_refl) as [_ H].
    apply H; [eexists; reflexivity | reflexivity].
Defined.

Lemma setup_succeeds_iff_subscription_exists_witness :
  (exists sub,
     (setupPubSubClient newclient_ok exists_yes service3 cfg_ps).2 = inl sub)
  /\ (setupPubSubClient newclient_ok exists_no service3 cfg_ps).2
     = inr (errorString "subscription s does not exist").
Proof.
  split.
  - apply (setup_succeeds_iff_subscription_exists newclient_ok exists_yes
             service3 cfg_ps). split; reflexivity.
  - destruct (setup_succeeds_iff_subscription_exists newclient_ok exists_no
                service3 cfg_ps) as (_ & _ & _ & H).
    apply H; reflexivity.
Defined.

Lemma setup_closes_client_on_failure_witness :
  last (setupPubSubClient newclient_ok exists_no service3 cfg_ps).1
  = Some PClose.
Proof.
  destruct (setup_closes_client_on_failure newclient_ok exists_no service3
              cfg_ps) as (_ & H).
  apply H; [reflexivity | eexists; reflexivity].
Defined.

Lemma main_exit_status_witness :
  (main newclient_ok exists_yes close_ok service3 parse_ok endpoint args_ps).2
  = 0%Z.
Proof.
  apply (main_exit_status newclient_ok exists_yes close_ok service3 parse_ok
           endpoint args_ps).
  right. exists cfg_ps. split; [exact parseFlags_args_ps|].
  repeat split; reflexivity.
Defined.

Lemma main_delivers_only_after_setup_witness :
  exists cfg,
    parseFlags args_ps = Parsed cfg
    /\ newclient_ok (Project cfg) = None
    /\ exists_yes (Project cfg) (Subscription cfg) = inl true.
Proof.
  apply (main_delivers_only_after_setup newclient_ok exists_yes close_ok
           service3 parse_ok endpoint args_ps (EvAck 0)).
  - vm_compute. do 6 right. left. reflexivity.
  - right. reflexivity.
Defined.

Lemma main_close_discipline_witness :
  closes (main newclient_ok exists_yes close_ok service3 parse_ok endpoint
            args_ps).1 = 1
  /\ closes (main newclient_ok exists_yes close_ok service_broken parse_ok
               endpoint args_ps).1 = 0.
Proof.
  split.
  - destruct (main_close_discipline newclient_ok exists_yes close_ok service3
                parse_ok endpoint args_ps) as (_ & H & _).
    apply (H cfg_ps run3 _ parseFlags_args_ps setup_ps).
    vm_compute. reflexivity.
  - destruct (main_close_discipline newclient_ok exists_yes close_ok
                service_broken parse_ok endpoint args_ps) as (_ & _ & H).
    eapply (H cfg_ps run_broken _ _ parseFlags_args_ps setup_ps_broken).
    vm_compute. reflexivity.
Defined.

Lemma main_calls_service_with_identifiers_witness : "p" <> "".
Proof.
  destruct (main_calls_service_with_identifiers newclient_ok exists_yes
              close_ok service3 parse_ok endpoint args_ps) as [H _].
  apply H. vm_compute. right. left. reflexivity.
Defined.

Lemma main_settles_every_delivery_witness :
  settled 1 (loop_events
               (main newclient_ok exists_yes close_ok service3 parse_ok
                  endpoint args_ps).1) = [EvNack 1].
Proof.
  destruct (main_settles_every_delivery newclient_ok exists_yes close_ok
              service3 parse_ok endpoint args_ps cfg_ps _ run3 1 msg_m1_later
              parseFlags_args_ps setup_ps eq_refl) as [_ H].
  rewrite H. vm_compute. reflexivity.
Defined.
